(** * Canary rollout controller: request tracker and rollout tick

    A shallow embedding of the Go package [canaryconfigmgr]:
    the request tracker ([RequestTracker.set], [RequestTracker.get]),
    the per-configuration tick ([processCanaryConfig]), the ticking loop
    ([addCanaryConfig]), the informer's add handler and the Prometheus
    query ([GetFunctionFailurePercentage]).

    Go's [int] is 64 bits wide on the platforms the controller is built
    for; it is embedded as [Z] and every arithmetic result is brought back
    into range by [wrap]. Maps are [gmap]s, pointers to counters are
    addresses into a list of cells. *)

From stdpp Require Import gmap strings list fin_maps.
From Stdlib Require Import ZArith Lia.

#[local] Set Warnings "-clear-no-such-hyp".

Open Scope Z_scope.

(** ** Machine integers *)

Definition int_min : Z := - 2 ^ 63.
Definition int_max : Z := 2 ^ 63 - 1.

(** Two's complement wrap-around of a 64-bit signed [int]. *)
Definition wrap (z : Z) : Z := (z + 2 ^ 63) `mod` 2 ^ 64 - 2 ^ 63.

Definition in_int (z : Z) : Prop := int_min <= z <= int_max.

(** ** Request tracker *)

(** Modelled from the spec: the struct [v1.TriggerReference] is declared
    outside the sources at hand; the data model describes a trigger
    identity as namespace + name. It is only used as a map key. *)
Record TriggerReference := mkTriggerReference {
  TriggerNamespace : string;
  TriggerName : string
}.

#[global] Instance TriggerReference_eq_dec : EqDecision TriggerReference.
Proof. solve_decision. Defined.

#[global] Instance TriggerReference_countable : Countable TriggerReference.
Proof.
  refine (inj_countable'
            (fun r => (TriggerNamespace r, TriggerName r))
            (fun p => mkTriggerReference p.1 p.2) _).
  by intros [].
Defined.

Record RequestCounter := mkRequestCounter {
  TotalRequests : Z;
  FailedRequests : Z
}.

#[global] Instance RequestCounter_eq_dec : EqDecision RequestCounter.
Proof. solve_decision. Defined.

(** [&RequestCounter{}]: both fields hold Go's zero value. *)
Definition zeroCounter : RequestCounter := mkRequestCounter 0 0.

(** A [*RequestCounter] is the index of a cell. *)
Abbreviation ptr := nat (only parsing).

(** The tracker: the map of the struct, from trigger to pointer, and the
    counter cells the program has allocated. The mutex makes [set] and
    [get] atomic; each is one state transformer here. *)
Record RequestTracker := mkRequestTracker {
  Counter : gmap TriggerReference ptr;
  cells : list RequestCounter
}.

Definition makeRequestTracker : RequestTracker :=
  {| Counter := ∅; cells := [] |}.

Definition incFailed (c : RequestCounter) : RequestCounter :=
  {| TotalRequests := TotalRequests c;
     FailedRequests := wrap (FailedRequests c + 1) |}.

Definition incTotal (c : RequestCounter) : RequestCounter :=
  {| TotalRequests := wrap (TotalRequests c + 1);
     FailedRequests := FailedRequests c |}.

(** The pointer [set] works on: the one stored under the key, or a
    freshly allocated cell when the key is absent. *)
Definition setTarget (reqTracker : RequestTracker)
    (triggerRef : TriggerReference) : ptr :=
  match Counter reqTracker !! triggerRef with
  | Some value => value
  | None => length (cells reqTracker)
  end.

(** [set]: look the key up; when it is absent allocate a zero counter
    (the new pointer is held in the local [value] only: the source has no
    assignment into [reqTracker.Counter]); then bump the fields through
    the pointer. *)
Definition set (reqTracker : RequestTracker)
    (triggerRef : TriggerReference) (failedReq : bool) : RequestTracker :=
  let '(value, mem) :=
    match Counter reqTracker !! triggerRef with
    | Some value => (value, cells reqTracker)
    | None => (length (cells reqTracker), cells reqTracker ++ [zeroCounter])
    end in
  let mem := if failedReq then alter incFailed value mem else mem in
  let mem := alter incTotal value mem in
  {| Counter := Counter reqTracker; cells := mem |}.

(** [get]: the pointer stored under the key; [None] is Go's [nil], the
    zero value a map read yields for an absent key. *)
Definition get (reqTracker : RequestTracker)
    (triggerRef : TriggerReference) : option ptr :=
  Counter reqTracker !! triggerRef.

(** Reading the struct behind a pointer. *)
Definition deref (reqTracker : RequestTracker) (p : ptr)
    : option RequestCounter :=
  cells reqTracker !! p.

(** A sequence of [set] calls, oldest first. *)
Definition record_all (calls : list (TriggerReference * bool))
    (reqTracker : RequestTracker) : RequestTracker :=
  foldl (fun tr c => set tr c.1 c.2) reqTracker calls.

(** The trackers a program can build with [makeRequestTracker] and
    [set]. *)
Inductive reachable : RequestTracker -> Prop :=
  | reach_make : reachable makeRequestTracker
  | reach_set tr triggerRef failedReq :
      reachable tr -> reachable (set tr triggerRef failedReq).

Definition counter_ok (c : RequestCounter) : Prop :=
  0 <= FailedRequests c <= TotalRequests c.

Definition b2z (b : bool) : Z := if b then 1 else 0.

(** What one [set] call makes of the counter it works on. *)
Definition bump (failedReq : bool) (c : RequestCounter) : RequestCounter :=
  incTotal (if failedReq then incFailed c else c).

(** ** Configuration and trigger objects *)

Record ObjectMeta := mkObjectMeta {
  Namespace : string;
  Name : string
}.

#[global] Instance ObjectMeta_eq_dec : EqDecision ObjectMeta.
Proof. solve_decision. Defined.

(** Modelled from the spec: [crd.CanaryConfig] is declared outside the
    sources at hand; these are the fields [processCanaryConfig] and
    [addCanaryConfig] read, with the types the data model gives them
    ([time.Duration] is an integer count of nanoseconds). *)
Record CanaryConfigSpec := mkCanaryConfigSpec {
  Trigger : TriggerReference;
  FunctionN : string;
  FunctionNminus1 : string;
  WeightIncrement : Z;
  WeightIncrementDuration : Z;
  FailureThreshold : Z
}.

Record CanaryConfig := mkCanaryConfig {
  Metadata : ObjectMeta;
  Spec : CanaryConfigSpec
}.

(** Modelled from the spec: [crd.HTTPTrigger] is declared outside the
    sources at hand. [FunctionWeights] stands for the field path
    [t.Spec.FunctionReference.FunctionWeights], a [map[string]int];
    [None] is the nil map, which Go lets one read but not assign to. *)
Record HTTPTrigger := mkHTTPTrigger {
  TriggerMetadata : ObjectMeta;
  FunctionWeights : option (gmap string Z)
}.

Inductive ApiError := NotFound | Conflict | OtherError.

(** The trigger read/update interface, as it answers during one tick:
    [HTTPTriggers(ns).Get(name)] and [HTTPTriggers(ns).Update(t)]. *)
Record FissionClient := mkFissionClient {
  HTTPTriggers_Get : string -> string -> ApiError + HTTPTrigger;
  HTTPTriggers_Update : string -> HTTPTrigger -> ApiError + HTTPTrigger
}.

(** What a tick asks of its collaborators, in program order. *)
Inductive Call :=
  | CallRollback
  | CallGet (ns name : string)
  | CallUpdate (ns : string) (t : HTTPTrigger)
  | CallReset (triggerRef : TriggerReference)
  | CallClose.

(** The manager as far as the tick sees it, with the calls made so far. *)
Record canaryConfigMgr := mkCanaryConfigMgr {
  fissionClient : FissionClient;
  requestTracker : RequestTracker;
  trace : list Call
}.

(** The [quit] channel carries no message: it is open or closed. *)
Inductive chan := Open | Closed.

(** A Go function either returns or panics. *)
Inductive Outcome := Returned | Panicked.

Definition log (c : Call) (m : canaryConfigMgr) : canaryConfigMgr :=
  {| fissionClient := fissionClient m;
     requestTracker := requestTracker m;
     trace := trace m ++ [c] |}.

Definition withTracker (tr : RequestTracker) (m : canaryConfigMgr)
    : canaryConfigMgr :=
  {| fissionClient := fissionClient m;
     requestTracker := tr;
     trace := trace m |}.

(** [close(quit)]: closing a closed channel panics. *)
Definition close (m : canaryConfigMgr) (quit : chan)
    : Outcome * canaryConfigMgr * chan :=
  match quit with
  | Open => (Returned, log CallClose m, Closed)
  | Closed => (Panicked, log CallClose m, Closed)
  end.

(** Modelled from the spec: [calculatePercentageFailure] is called by
    [processCanaryConfig] and defined nowhere in the sources at hand. The
    local metrics adapter computes failed/total x 100 from the current
    snapshot; the result is compared with the integer [FailureThreshold],
    so it is an [int] and the division truncates. *)
Definition calculatePercentageFailure (requestCounter : RequestCounter) : Z :=
  wrap (Z.quot (wrap (FailedRequests requestCounter * 100))
               (TotalRequests requestCounter)).

(** Modelled from the spec: [RequestTracker.reset] is called by
    [processCanaryConfig] and defined nowhere in the sources at hand. It
    zeroes both counters of the trigger; a trigger without a counter has
    nothing to zero. *)
Definition reset (reqTracker : RequestTracker)
    (triggerRef : TriggerReference) : RequestTracker :=
  match Counter reqTracker !! triggerRef with
  | Some p => {| Counter := Counter reqTracker;
                 cells := <[p := zeroCounter]> (cells reqTracker) |}
  | None => reqTracker
  end.

(** Reading [m[k]]: the zero value when the key is absent. *)
Definition weight (functionWeights : gmap string Z) (k : string) : Z :=
  default 0 (functionWeights !! k).

(** [m[k] += d]. *)
Definition addWeight (k : string) (d : Z) (functionWeights : gmap string Z)
    : gmap string Z :=
  <[k := wrap (weight functionWeights k + d)]> functionWeights.

(** [m[k] -= d]. *)
Definition subWeight (k : string) (d : Z) (functionWeights : gmap string Z)
    : gmap string Z :=
  <[k := wrap (weight functionWeights k - d)]> functionWeights.

(** The sum of all weights of a mapping, as a mathematical integer. *)
Definition totalWeight (functionWeights : gmap string Z) : Z :=
  map_fold (fun _ w acc => w + acc) 0 functionWeights.

(** ** One tick *)

(** [processCanaryConfig]. [rollback()] takes no argument and its body is
    not part of the sources; it is recorded as a call. A pointer that
    addresses no cell is read as nil (Go has no such pointer). *)
Definition processCanaryConfig (canaryCfgMgr : canaryConfigMgr)
    (canaryConfig : CanaryConfig) (quit : chan)
    : Outcome * canaryConfigMgr * chan :=
  let spec := Spec canaryConfig in
  match get (requestTracker canaryCfgMgr) (Trigger spec)
          ≫= deref (requestTracker canaryCfgMgr) with
  | None => (Returned, canaryCfgMgr, quit)
  | Some requestCounter =>
    if bool_decide (TotalRequests requestCounter = 0)
    then (Returned, canaryCfgMgr, quit)
    else
      let failurePercent := calculatePercentageFailure requestCounter in
      if bool_decide (failurePercent > FailureThreshold spec)
      then close (log CallRollback canaryCfgMgr) quit
      else
        let ns := Namespace (Metadata canaryConfig) in
        let name := TriggerName (Trigger spec) in
        let m1 := log (CallGet ns name) canaryCfgMgr in
        match HTTPTriggers_Get (fissionClient canaryCfgMgr) ns name with
        | inl err => (Returned, m1, quit)
        | inr t =>
          match FunctionWeights t with
          | None => (Panicked, m1, quit)
          | Some functionWeights =>
            let functionWeights :=
              addWeight (FunctionN spec) (WeightIncrement spec)
                        functionWeights in
            let functionWeights :=
              subWeight (FunctionNminus1 spec) (WeightIncrement spec)
                        functionWeights in
            let t := {| TriggerMetadata := TriggerMetadata t;
                        FunctionWeights := Some functionWeights |} in
            let m2 := log (CallUpdate ns t) m1 in
            match HTTPTriggers_Update (fissionClient canaryCfgMgr) ns t with
            | inl err => (Returned, m2, quit)
            | inr _ =>
              let m3 :=
                log (CallReset (Trigger spec))
                    (withTracker (reset (requestTracker m2) (Trigger spec))
                                 m2) in
              if bool_decide (weight functionWeights (FunctionN spec) >= 100)
              then close m3 quit
              else (Returned, m3, quit)
            end
          end
        end
  end.

(** The calls made between manager state [m] and a later state [m']. *)
Definition newCalls (m m' : canaryConfigMgr) : list Call :=
  drop (length (trace m)) (trace m').

(** The trigger a tick sends to [Update]: the one it read, with the two
    weights shifted. *)
Definition updatedTrigger (canaryConfig : CanaryConfig) (t : HTTPTrigger)
    (functionWeights : gmap string Z) : HTTPTrigger :=
  {| TriggerMetadata := TriggerMetadata t;
     FunctionWeights :=
       Some (subWeight (FunctionNminus1 (Spec canaryConfig))
               (WeightIncrement (Spec canaryConfig))
               (addWeight (FunctionN (Spec canaryConfig))
                  (WeightIncrement (Spec canaryConfig)) functionWeights)) |}.

(** How [close] ends, by the state of the channel. *)
Definition closeOutcome (quit : chan) : Outcome :=
  match quit with Open => Returned | Closed => Panicked end.

(** The effects of the increment part of a tick: from the trigger read
    on. *)
Inductive increment_effect (m : canaryConfigMgr) (cfg : CanaryConfig)
    (quit : chan) : Outcome -> list Call -> RequestTracker -> chan -> Prop :=
  | eff_get_error err :
      HTTPTriggers_Get (fissionClient m) (Namespace (Metadata cfg))
        (TriggerName (Trigger (Spec cfg))) = inl err ->
      increment_effect m cfg quit Returned
        [CallGet (Namespace (Metadata cfg)) (TriggerName (Trigger (Spec cfg)))]
        (requestTracker m) quit
  | eff_nil_weights t :
      HTTPTriggers_Get (fissionClient m) (Namespace (Metadata cfg))
        (TriggerName (Trigger (Spec cfg))) = inr t ->
      FunctionWeights t = None ->
      increment_effect m cfg quit Panicked
        [CallGet (Namespace (Metadata cfg)) (TriggerName (Trigger (Spec cfg)))]
        (requestTracker m) quit
  | eff_update_error t fw err :
      HTTPTriggers_Get (fissionClient m) (Namespace (Metadata cfg))
        (TriggerName (Trigger (Spec cfg))) = inr t ->
      FunctionWeights t = Some fw ->
      HTTPTriggers_Update (fissionClient m) (Namespace (Metadata cfg))
        (updatedTrigger cfg t fw) = inl err ->
      increment_effect m cfg quit Returned
        [CallGet (Namespace (Metadata cfg)) (TriggerName (Trigger (Spec cfg)));
         CallUpdate (Namespace (Metadata cfg)) (updatedTrigger cfg t fw)]
        (requestTracker m) quit
  | eff_incremented t fw t' :
      HTTPTriggers_Get (fissionClient m) (Namespace (Metadata cfg))
        (TriggerName (Trigger (Spec cfg))) = inr t ->
      FunctionWeights t = Some fw ->
      HTTPTriggers_Update (fissionClient m) (Namespace (Metadata cfg))
        (updatedTrigger cfg t fw) = inr t' ->
      ~ weight (default ∅ (FunctionWeights (updatedTrigger cfg t fw)))
          (FunctionN (Spec cfg)) >= 100 ->
      increment_effect m cfg quit Returned
        [CallGet (Namespace (Metadata cfg)) (TriggerName (Trigger (Spec cfg)));
         CallUpdate (Namespace (Metadata cfg)) (updatedTrigger cfg t fw);
         CallReset (Trigger (Spec cfg))]
        (reset (requestTracker m) (Trigger (Spec cfg))) quit
  | eff_completed t fw t' :
      HTTPTriggers_Get (fissionClient m) (Namespace (Metadata cfg))
        (TriggerName (Trigger (Spec cfg))) = inr t ->
      FunctionWeights t = Some fw ->
      HTTPTriggers_Update (fissionClient m) (Namespace (Metadata cfg))
        (updatedTrigger cfg t fw) = inr t' ->
      weight (default ∅ (FunctionWeights (updatedTrigger cfg t fw)))
        (FunctionN (Spec cfg)) >= 100 ->
      increment_effect m cfg quit (closeOutcome quit)
        [CallGet (Namespace (Metadata cfg)) (TriggerName (Trigger (Spec cfg)));
         CallUpdate (Namespace (Metadata cfg)) (updatedTrigger cfg t fw);
         CallReset (Trigger (Spec cfg));
         CallClose]
        (reset (requestTracker m) (Trigger (Spec cfg))) Closed.

(** The effects of a tick, path by path: how it ends, the calls it makes,
    the tracker and the channel it leaves. *)
Inductive tick_effect (m : canaryConfigMgr) (cfg : CanaryConfig)
    (quit : chan) : Outcome -> list Call -> RequestTracker -> chan -> Prop :=
  | eff_no_counter :
      get (requestTracker m) (Trigger (Spec cfg))
        ≫= deref (requestTracker m) = None ->
      tick_effect m cfg quit Returned [] (requestTracker m) quit
  | eff_no_requests c :
      get (requestTracker m) (Trigger (Spec cfg))
        ≫= deref (requestTracker m) = Some c ->
      TotalRequests c = 0 ->
      tick_effect m cfg quit Returned [] (requestTracker m) quit
  | eff_rollback c :
      get (requestTracker m) (Trigger (Spec cfg))
        ≫= deref (requestTracker m) = Some c ->
      TotalRequests c <> 0 ->
      calculatePercentageFailure c > FailureThreshold (Spec cfg) ->
      tick_effect m cfg quit (closeOutcome quit)
        [CallRollback; CallClose] (requestTracker m) Closed
  | eff_running c (Hc :
      get (requestTracker m) (Trigger (Spec cfg))
        ≫= deref (requestTracker m) = Some c)
      (Hnz : TotalRequests c <> 0)
      (Hle : calculatePercentageFailure c <= FailureThreshold (Spec cfg))
      out new tr quit' :
      increment_effect m cfg quit out new tr quit' ->
      tick_effect m cfg quit out new tr quit'.

(** ** The ticking loop *)

(** What happens around one timer tick: the outcomes the request paths
    record before it, and the trigger interface as it answers during it. *)
Record Tick := mkTick {
  recorded : list (TriggerReference * bool);
  api : FissionClient
}.

(** Where a loop goroutine is: blocked in its [select], returned through
    the [quit] case, or panicked. *)
Inductive LoopStatus := Waiting | Stopped | Crashed.

#[global] Instance LoopStatus_eq_dec : EqDecision LoopStatus.
Proof. solve_decision. Defined.

Definition beforeTick (tk : Tick) (m : canaryConfigMgr) : canaryConfigMgr :=
  {| fissionClient := api tk;
     requestTracker := record_all (recorded tk) (requestTracker m);
     trace := trace m |}.

(** The [for { select { ... } }] of [addCanaryConfig], run over the ticks
    the timer delivers. The [quit] channel is open whenever the loop
    waits: once a tick has closed it, the next [select] takes the [quit]
    case, stops the ticker and returns. A tick takes less than one tick
    interval here, so no timer tick is pending next to a closed [quit]. *)
Fixpoint ticking (canaryConfig : CanaryConfig) (ticks : list Tick)
    (m : canaryConfigMgr) : LoopStatus * canaryConfigMgr :=
  match ticks with
  | [] => (Waiting, m)
  | tk :: ticks =>
    match processCanaryConfig (beforeTick tk m) canaryConfig Open with
    | (Panicked, m, _) => (Crashed, m)
    | (Returned, m, Closed) => (Stopped, m)
    | (Returned, m, Open) => ticking canaryConfig ticks m
    end
  end.

(** [addCanaryConfig]: [time.NewTicker] panics on a non-positive
    interval; [quit] is made open. *)
Definition addCanaryConfig (canaryCfgMgr : canaryConfigMgr)
    (canaryConfig : CanaryConfig) (ticks : list Tick)
    : LoopStatus * canaryConfigMgr :=
  if bool_decide (WeightIncrementDuration (Spec canaryConfig) <= 0)
  then (Crashed, canaryCfgMgr)
  else ticking canaryConfig ticks canaryCfgMgr.

(** ** The informer's add handler *)

(** A goroutine started by [go canaryCfgMgr.addCanaryConfig(canaryConfig)]. *)
Record Goroutine := mkGoroutine {
  g_config : CanaryConfig;
  g_status : LoopStatus
}.

(** The controller at run time: the manager and the goroutines its
    handlers have started. The manager struct has no field that records
    them. *)
Record Controller := mkController {
  mgr : canaryConfigMgr;
  goroutines : list Goroutine
}.

(** [MakeCanaryConfigMgr]: a fresh tracker, no goroutine yet. *)
Definition MakeCanaryConfigMgr (fissionClient : FissionClient) : Controller :=
  {| mgr := {| fissionClient := fissionClient;
               requestTracker := makeRequestTracker;
               trace := [] |};
     goroutines := [] |}.

(** [AddFunc]: the handler of an Added event. It starts the loop in a new
    goroutine, which creates its ticker and waits for the first tick. *)
Definition AddFunc (obj : CanaryConfig) (c : Controller) : Controller :=
  {| mgr := mgr c;
     goroutines :=
       goroutines c ++
       [ {| g_config := obj;
            g_status := (addCanaryConfig (mgr c) obj []).1 |} ] |}.

(** The loops that are ticking for a configuration identity. *)
Definition activeLoops (id : ObjectMeta) (c : Controller) : nat :=
  length (filter (fun g => Metadata (g_config g) = id /\ g_status g = Waiting)
                 (goroutines c)).

(** ** The Prometheus query *)

(** A sample of a vector result; the function only prints it. *)
Record Sample := mkSample {
  Metric : string;
  Value : string
}.

(** [model.Value] by its [Type()]. *)
Inductive ModelValue :=
  | ValScalar (s : Sample)
  | ValVector (v : list Sample)
  | ValMatrix
  | ValString (s : string).

Inductive QueryError := QueryFailed (msg : string).

(** [promApi.QueryAPI]: the answer to [Query(ctx, query, ts)], a value
    (nil is [None]) and an error (nil is [None]). *)
Record PrometheusApiClient := mkPrometheusApiClient {
  Query : string -> Z -> option ModelValue * option QueryError
}.

Inductive LogLine :=
  | LogQueryError (err : QueryError)
  | LogElem (metric value : string)
  | LogUnrecognized.

(** [GetFunctionFailurePercentage]. The Go function has no result: what
    the caller gets is whether it returned, and the lines it logged are
    kept next to it. [val.Type()] on a nil value panics. *)
Definition GetFunctionFailurePercentage (promApi : PrometheusApiClient)
    (funcName funcNs : string) (timeDuration : Z)
    : Outcome * list LogLine :=
  let queryString :=
    ("fission_function_errors_total{name=" +:+ funcName +:+
     ",namespace=" +:+ funcNs +:+ "}")%string in
  let '(val, err) := Query promApi queryString timeDuration in
  let logs :=
    match err with
    | Some e => [LogQueryError e]
    | None => []
    end in
  match val with
  | None => (Panicked, logs)
  | Some (ValScalar scalarVal) => (Returned, logs)
  | Some (ValVector vectorVal) =>
      (Returned,
       logs ++ map (fun elem => LogElem (Metric elem) (Value elem)) vectorVal)
  | Some _ => (Returned, logs ++ [LogUnrecognized])
  end.

(** ** Sample inputs *)

Definition exampleTrigger : TriggerReference :=
  mkTriggerReference "default" "route".

(** Threshold 10 per cent, 20 points per tick, one tick a minute. *)
Definition exampleConfig : CanaryConfig :=
  {| Metadata := mkObjectMeta "default" "canary";
     Spec := {| Trigger := exampleTrigger;
                FunctionN := "fn-v2";
                FunctionNminus1 := "fn-v1";
                WeightIncrement := 20;
                WeightIncrementDuration := 60000000000;
                FailureThreshold := 10 |} |}.

(** A tracker whose map holds one counter for the sample trigger. *)
Definition trackerWith (total failed : Z) : RequestTracker :=
  {| Counter := {[ exampleTrigger := 0%nat ]};
     cells := [mkRequestCounter total failed] |}.

Definition weightsOf (n n1 : Z) : gmap string Z :=
  {[ "fn-v2"%string := n; "fn-v1"%string := n1 ]}.

(** A trigger interface that serves the sample trigger with the given
    weights and accepts every update. *)
Definition apiServing (n n1 : Z) : FissionClient :=
  {| HTTPTriggers_Get := fun _ _ =>
       inr {| TriggerMetadata := mkObjectMeta "default" "route";
              FunctionWeights := Some (weightsOf n n1) |};
     HTTPTriggers_Update := fun _ t => inr t |}.

Definition exampleApi : FissionClient := apiServing 0 100.

(** The same, but every update is answered with a conflict. *)
Definition apiConflict (n n1 : Z) : FissionClient :=
  {| HTTPTriggers_Get := HTTPTriggers_Get (apiServing n n1);
     HTTPTriggers_Update := fun _ _ => inl Conflict |}.

(** A trigger interface whose trigger is gone. *)
Definition apiNotFound : FissionClient :=
  {| HTTPTriggers_Get := fun _ _ => inl NotFound;
     HTTPTriggers_Update := fun _ _ => inl NotFound |}.

Definition mgrWith (client : FissionClient) (tr : RequestTracker)
    : canaryConfigMgr :=
  {| fissionClient := client; requestTracker := tr; trace := [] |}.

(** A Prometheus whose every query fails with the given error. *)
Definition failingProm (e : QueryError) : PrometheusApiClient :=
  {| Query := fun _ _ => (None, Some e) |}.

(** ** Counting recorded outcomes *)

(** The calls of a sequence that are for one trigger. *)
Definition callsFor (triggerRef : TriggerReference)
    (calls : list (TriggerReference * bool)) : list (TriggerReference * bool) :=
  filter (fun c => c.1 = triggerRef) calls.

(** The calls of a sequence that report a failed request. *)
Definition failedCalls (calls : list (TriggerReference * bool))
    : list (TriggerReference * bool) :=
  filter (fun c => c.2 = true) calls.

(** The snapshot a reader of the tracker sees for a trigger: the struct
    behind the pointer [get] returns. *)
Definition snapshotOf (reqTracker : RequestTracker)
    (triggerRef : TriggerReference) : option RequestCounter :=
  get reqTracker triggerRef ≫= deref reqTracker.

(** ** The informer's handlers *)

(** The [interface{}] values the handlers are called with, by dynamic
    type. *)
Inductive Object :=
  | CanaryConfigObject (c : CanaryConfig)
  | HTTPTriggerObject (t : HTTPTrigger).

(** A goroutine started on [deleteCanaryConfig] or [updateCanaryConfig];
    neither function is part of the sources, so only the start is kept. *)
Inductive Background :=
  | GoDelete (canaryConfig : CanaryConfig)
  | GoUpdate (oldConfig newConfig : HTTPTrigger).

(** The controller with the goroutines of all three handlers. *)
Record Informer := mkInformer {
  controller : Controller;
  background : list Background
}.

(** [AddFunc] from the informer's side: the type assertion of [obj] to
    [*crd.CanaryConfig] panics on any other dynamic type. *)
Definition OnAdd (obj : Object) (i : Informer) : Outcome * Informer :=
  match obj with
  | CanaryConfigObject canaryConfig =>
      (Returned,
       {| controller := AddFunc canaryConfig (controller i);
          background := background i |})
  | _ => (Panicked, i)
  end.

(** [DeleteFunc]: the same assertion, then
    [go canaryCfgMgr.deleteCanaryConfig(canaryConfig)]. *)
Definition OnDelete (obj : Object) (i : Informer) : Outcome * Informer :=
  match obj with
  | CanaryConfigObject canaryConfig =>
      (Returned,
       {| controller := controller i;
          background := background i ++ [GoDelete canaryConfig] |})
  | _ => (Panicked, i)
  end.

(** [UpdateFunc]: both objects are asserted to be [*crd.HTTPTrigger], the
    old one first, then
    [go canaryCfgMgr.updateCanaryConfig(oldConfig, newConfig)]. *)
Definition OnUpdate (oldObj newObj : Object) (i : Informer)
    : Outcome * Informer :=
  match oldObj with
  | HTTPTriggerObject oldConfig =>
    match newObj with
    | HTTPTriggerObject newConfig =>
        (Returned,
         {| controller := controller i;
            background := background i ++ [GoUpdate oldConfig newConfig] |})
    | _ => (Panicked, i)
    end
  | _ => (Panicked, i)
  end.

(** The notifications an informer hands to its handlers. *)
Inductive Event :=
  | Added (obj : Object)
  | Updated (oldObj newObj : Object)
  | Deleted (obj : Object).

Definition handle (e : Event) (i : Informer) : Outcome * Informer :=
  match e with
  | Added obj => OnAdd obj i
  | Updated oldObj newObj => OnUpdate oldObj newObj i
  | Deleted obj => OnDelete obj i
  end.

(** Notifications are handled one after the other; a panicking handler
    ends the delivery. *)
Fixpoint deliver (events : list Event) (i : Informer) : Outcome * Informer :=
  match events with
  | [] => (Returned, i)
  | e :: events =>
    match handle e i with
    | (Panicked, i) => (Panicked, i)
    | (Returned, i) => deliver events i
    end
  end.

(** What the informer made by [initCanaryConfigController] delivers: it
    lists and watches [canaryconfigs], so every object is a
    [*crd.CanaryConfig]. *)
Definition isCanaryConfig (obj : Object) : Prop :=
  match obj with CanaryConfigObject _ => True | _ => False end.

Definition fromCanaryConfigs (e : Event) : Prop :=
  match e with
  | Added obj | Deleted obj => isCanaryConfig obj
  | Updated oldObj newObj => isCanaryConfig oldObj /\ isCanaryConfig newObj
  end.

Definition isUpdated (e : Event) : Prop :=
  match e with Updated _ _ => True | _ => False end.



(** ** The query of the Prometheus client *)

(** The query [GetFunctionFailurePercentage] formats with
    [fmt.Sprintf]. *)
Definition queryString (funcName funcNs : string) : string :=
  ("fission_function_errors_total{name=" +:+ funcName +:+
   ",namespace=" +:+ funcNs +:+ "}")%string.

(** ** The plugin manager *)

(** The package [plugins]: finding the plugins of a command-line tool on
    the machine and caching their metadata in a file. What the package
    asks of the operating system and of the Go library is kept apart: the
    file system and the clock are state ([World]), the other calls answer
    as functions of their arguments ([Lib]). *)
Module plugins.

Inductive error :=
  | ErrPluginNotFound
  | ErrPluginInvalid
  | ErrUndefinedCache
  | ErrNoMetadata
  | ErrExternal (msg : string).

#[global] Instance error_eq_dec : EqDecision error.
Proof. solve_decision. Defined.

(** [time.Time] and [time.Duration] as counts of nanoseconds. *)
Definition CacheRefreshInterval : Z := 3600 * 1000000000.
Definition CmdMetadataArgs : string := "--plugin".

Record Metadata := mkMetadata {
  Name : string;
  Version : string;
  Url : string;
  Requires : gmap string string;
  Aliases : list string;
  Usage : string;
  Path : string;
  ModifiedAt : Z
}.

(** [&Metadata{}]. *)
Definition zeroMetadata : Metadata :=
  {| Name := ""; Version := ""; Url := ""; Requires := ∅; Aliases := [];
     Usage := ""; Path := ""; ModifiedAt := 0 |}.

Definition withPathName (pluginPath name : string) (md : Metadata)
    : Metadata :=
  {| Name := name; Version := Version md; Url := Url md;
     Requires := Requires md; Aliases := Aliases md; Usage := Usage md;
     Path := pluginPath; ModifiedAt := ModifiedAt md |}.

Definition withModifiedAt (t : Z) (md : Metadata) : Metadata :=
  {| Name := Name md; Version := Version md; Url := Url md;
     Requires := Requires md; Aliases := Aliases md; Usage := Usage md;
     Path := Path md; ModifiedAt := t |}.

(** A [*Metadata]: [None] is nil. A [map[string]*Metadata]: [None] is the
    nil map. *)
Abbreviation MetadataPtr := (option Metadata) (only parsing).
Abbreviation MetadataMap := (option (gmap string (option Metadata)))
  (only parsing).

Record Manager := mkManager {
  Prefix : string;
  Registries : list string;
  CachePath : string;
  cache : option (gmap string (option Metadata))
}.

Definition withCache (c : option (gmap string (option Metadata)))
    (mgr : Manager) : Manager :=
  {| Prefix := Prefix mgr; Registries := Registries mgr;
     CachePath := CachePath mgr; cache := c |}.

(** *** Strings *)

Fixpoint dropString (n : nat) (s : string) : string :=
  match n, s with
  | O, _ => s
  | S n, String _ s => dropString n s
  | S _, EmptyString => EmptyString
  end.

(** [strings.HasPrefix] and [strings.TrimPrefix]. *)
Definition HasPrefix (s prefix : string) : bool := String.prefix prefix s.

Definition TrimPrefix (s prefix : string) : string :=
  if HasPrefix s prefix then dropString (String.length prefix) s else s.

Definition binaryNameForPlugin (mgr : Manager) (pluginName : string)
    : string :=
  (Prefix mgr +:+ pluginName)%string.

Definition pluginNameFromBinary (mgr : Manager) (binaryName : string)
    : string :=
  TrimPrefix binaryName (Prefix mgr).

(** *** The machine *)

Record File := mkFile {
  IsDir : bool;
  Mode : Z;
  ModTime : Z;
  Content : string
}.

(** The file system by path, the clock, and whether a path can be
    written. *)
Record World := mkWorld {
  files : gmap string File;
  now : Z;
  writable : string -> bool
}.

(** The calls into the library and into other processes.
    [json_UnmarshalCache] and [json_UnmarshalMetadata] give the value the
    target holds afterwards next to the error; [run] gives the standard
    output of the command and its error. *)
Record Lib := mkLib {
  json_Marshal : option (gmap string (option Metadata))
                 -> string * option error;
  json_UnmarshalCache : string
                        -> option (gmap string (option Metadata))
                           * option error;
  json_UnmarshalMetadata : string -> Metadata * option error;
  path_Base : string -> string;
  path_Join : string -> string -> string;
  exec_LookPath : string -> string * option error;
  run : string -> list string -> string * option error;
  pathDirs : list string;
  ioutil_ReadDir : string -> option (list string)
}.

(** [os.Stat]. *)
Definition os_Stat (w : World) (name : string) : option File :=
  files w !! name.

(** [ioutil.ReadFile]. *)
Definition ioutil_ReadFile (w : World) (name : string) : error + string :=
  match files w !! name with
  | Some f => if IsDir f then inl (ErrExternal "is a directory")
              else inr (Content f)
  | None => inl (ErrExternal "no such file or directory")
  end.

(** [ioutil.WriteFile]: the file is created with [perm] or truncated,
    and its modification time is the present. *)
Definition ioutil_WriteFile (w : World) (name : string) (data : string)
    (perm : Z) : option error * World :=
  let refused := (Some (ErrExternal "cannot write"), w) in
  let written (mode : Z) :=
    (None,
     {| files := <[name := {| IsDir := false; Mode := mode;
                              ModTime := now w; Content := data |}]>
                   (files w);
        now := now w;
        writable := writable w |}) in
  if writable w name then
    match files w !! name with
    | Some f => if IsDir f then refused else written (Mode f)
    | None => written perm
    end
  else refused.

Definition ModePerm : Z := 511.

(** *** The cache *)

Definition useCache (mgr : Manager) : bool :=
  bool_decide (0 < String.length (CachePath mgr))%nat.

Definition cacheIsStale (mgr : Manager) (w : World) : bool :=
  if bool_decide (String.length (CachePath mgr) = 0%nat) then true
  else
    match os_Stat w (CachePath mgr) with
    | None => true
    | Some fi => bool_decide (now w > ModTime fi + CacheRefreshInterval)
    end.

(** [readCache]: the map and the error it returns, and the manager with
    its [cache] field. *)
Definition readCache (lib : Lib) (mgr : Manager) (w : World)
    : option (gmap string (option Metadata)) * option error * Manager :=
  match cache mgr with
  | Some c => (Some c, None, mgr)
  | None =>
    let cached : option (gmap string (option Metadata)) := Some ∅ in
    if bool_decide (String.length (CachePath mgr) = 0%nat)
    then (cached, Some ErrUndefinedCache, mgr)
    else
      match ioutil_ReadFile w (CachePath mgr) with
      | inl err => (cached, Some err, mgr)
      | inr bs =>
        match json_UnmarshalCache lib bs with
        | (cached, Some err) => (cached, Some err, mgr)
        | (cached, None) => (cached, None, withCache cached mgr)
        end
      end
  end.

Definition writeCacheAll (lib : Lib) (mgr : Manager)
    (mds : option (gmap string (option Metadata))) (w : World)
    : option error * Manager * World :=
  if bool_decide (String.length (CachePath mgr) = 0%nat)
  then (Some ErrUndefinedCache, mgr, w)
  else
    match json_Marshal lib mds with
    | (_, Some err) => (Some err, mgr, w)
    | (bs, None) =>
      match ioutil_WriteFile w (CachePath mgr) bs ModePerm with
      | (Some err, w) => (Some err, mgr, w)
      | (None, w) => (None, withCache mds mgr, w)
      end
    end.

(** [writeCache]. After a [readCache] without error the local [cached] is
    the map [mgr.cache] refers to, so the assignment [cached[md.Name] = md]
    is seen through the manager; on a nil map it panics. *)
Definition writeCache (lib : Lib) (mgr : Manager) (md : option Metadata)
    (w : World) : Outcome * option error * Manager * World :=
  match md with
  | None => (Returned, Some ErrNoMetadata, mgr, w)
  | Some m =>
    match readCache lib mgr w with
    | (_, Some err, mgr) => (Returned, Some err, mgr, w)
    | (None, None, mgr) => (Panicked, None, mgr, w)
    | (Some cached, None, mgr) =>
      let cached := <[Name m := Some m]> cached in
      let mgr := withCache (Some cached) mgr in
      match writeCacheAll lib mgr (Some cached) w with
      | (Some err, mgr, w) => (Returned, Some err, mgr, w)
      | (None, mgr, w) => (Returned, None, mgr, w)
      end
    end
  end.

(** The manager and the machine differ at most in the loaded cache and in
    the cache file. *)
Definition onlyCacheChanged (mgr : Manager) (w : World)
    (mgr' : Manager) (w' : World) : Prop :=
  Prefix mgr' = Prefix mgr /\ CachePath mgr' = CachePath mgr /\
  now w' = now w /\
  forall p, p <> CachePath mgr -> files w' !! p = files w !! p.

(** *** Finding plugins *)

(** [findPluginPath]: the error of [exec.LookPath] is only logged; what
    decides is whether the path is empty. *)
Definition findPluginPath (lib : Lib) (mgr : Manager) (pluginName : string)
    : string * option error :=
  let binaryName := binaryNameForPlugin mgr pluginName in
  let '(path, err) := exec_LookPath lib binaryName in
  if bool_decide (String.length path = 0%nat)
  then (EmptyString, Some ErrPluginNotFound)
  else (path, None).

(** The second half of [fetchPluginMetadata]: run the plugin with
    [--plugin], parse what it prints, stamp the modification time of the
    binary [d] and store the result in the cache when there is one. The
    error of [writeCache] is dropped. *)
Definition runPlugin (lib : Lib) (mgr : Manager) (pluginPath : string)
    (d : File) (w : World)
    : Outcome * option Metadata * option error * Manager * World :=
  match run lib pluginPath [CmdMetadataArgs] with
  | (_, Some err) => (Returned, None, Some err, mgr, w)
  | (buf, None) =>
    let md :=
      match json_UnmarshalMetadata lib buf with
      | (md, Some _) =>
          withPathName pluginPath
            (pluginNameFromBinary mgr (path_Base lib pluginPath)) md
      | (md, None) => md
      end in
    let md := withModifiedAt (ModTime d) md in
    if useCache mgr then
      match writeCache lib mgr (Some md) w with
      | (Panicked, _, mgr, w) => (Panicked, None, None, mgr, w)
      | (Returned, _, mgr, w) => (Returned, Some md, None, mgr, w)
      end
    else (Returned, Some md, None, mgr, w)
  end.

(** [fetchPluginMetadata]. The mode test is [m.IsDir() || m&0111 == 0].
    A cache entry that is a nil pointer panics on [c.ModifiedAt]. *)
Definition fetchPluginMetadata (lib : Lib) (mgr : Manager)
    (pluginPath : string) (w : World)
    : Outcome * option Metadata * option error * Manager * World :=
  match os_Stat w pluginPath with
  | None => (Returned, None, Some ErrPluginNotFound, mgr, w)
  | Some d =>
    if IsDir d || bool_decide (Z.land (Mode d) 73 = 0)
    then (Returned, None, Some ErrPluginInvalid, mgr, w)
    else if useCache mgr && negb (cacheIsStale mgr w)
    then
      match readCache lib mgr w with
      | (cached, err, mgr) =>
        match cached ≫=
              (fun c => c !! pluginNameFromBinary mgr
                               (path_Base lib pluginPath)) with
        | Some (Some c) =>
            if bool_decide (ModifiedAt c = ModTime d)
            then (Returned, Some c, None, mgr, w)
            else runPlugin lib mgr pluginPath d w
        | Some None => (Panicked, None, None, mgr, w)
        | None => runPlugin lib mgr pluginPath d w
        end
      end
    else runPlugin lib mgr pluginPath d w
  end.

Definition Find (lib : Lib) (mgr : Manager) (pluginName : string)
    (w : World)
    : Outcome * option Metadata * option error * Manager * World :=
  match findPluginPath lib mgr pluginName with
  | (_, Some err) => (Returned, None, Some err, mgr, w)
  | (pluginPath, None) =>
    match fetchPluginMetadata lib mgr pluginPath w with
    | (out, _, Some err, mgr, w) => (out, None, Some err, mgr, w)
    | (out, md, None, mgr, w) => (out, md, None, mgr, w)
    end
  end.

(** The body of the inner loop of [FindAll], for the file [name] of the
    directory [dir]; a panic ends the loops. *)
Definition FindAll_file (lib : Lib) (dir : string)
    (acc : Outcome * gmap string (option Metadata) * Manager * World)
    (name : string)
    : Outcome * gmap string (option Metadata) * Manager * World :=
  match acc with
  | (Panicked, _, _, _) => acc
  | (Returned, found, mgr, w) =>
    if negb (HasPrefix name (Prefix mgr)) then acc
    else
      let fp := path_Join lib dir name in
      match fetchPluginMetadata lib mgr fp w with
      | (Panicked, _, _, mgr, w) => (Panicked, found, mgr, w)
      | (Returned, _, Some err, mgr, w) => (Returned, found, mgr, w)
      | (Returned, Some md, None, mgr, w) =>
          (Returned, <[Name md := Some md]> found, mgr, w)
      | (Returned, None, None, mgr, w) => (Panicked, found, mgr, w)
      end
  end.

(** The body of the outer loop: a directory of [$PATH] that cannot be
    read is skipped. *)
Definition FindAll_dir (lib : Lib)
    (acc : Outcome * gmap string (option Metadata) * Manager * World)
    (dir : string)
    : Outcome * gmap string (option Metadata) * Manager * World :=
  match ioutil_ReadDir lib dir with
  | None => acc
  | Some fs => foldl (FindAll_file lib dir) acc fs
  end.

(** [FindAll]: the error of the final [writeCacheAll] is only logged. *)
Definition FindAll (lib : Lib) (mgr : Manager) (w : World)
    : Outcome * gmap string (option Metadata) * Manager * World :=
  match foldl (FindAll_dir lib) (Returned, ∅, mgr, w) (pathDirs lib) with
  | (Panicked, found, mgr, w) => (Panicked, found, mgr, w)
  | (Returned, found, mgr, w) =>
    if useCache mgr then
      match writeCacheAll lib mgr (Some found) w with
      | (_, mgr, w) => (Returned, found, mgr, w)
      end
    else (Returned, found, mgr, w)
  end.

(** What the loops of [FindAll] keep: every entry found so far is a
    non-nil pointer stored under the name it carries, and only the cache
    has changed. *)
Definition FindAll_inv (mgr : Manager) (w : World)
    (acc : Outcome * gmap string (option Metadata) * Manager * World)
    : Prop :=
  (forall k v, acc.1.1.2 !! k = Some v ->
               exists md : Metadata, v = Some md /\ Name md = k) /\
  onlyCacheChanged mgr w acc.1.2 acc.2.

(** [UpdateCacheIfStale]. *)
Definition UpdateCacheIfStale (lib : Lib) (mgr : Manager) (w : World)
    : Outcome * Manager * World :=
  if useCache mgr && cacheIsStale mgr w then
    match FindAll lib mgr w with
    | (out, _, mgr, w) => (out, mgr, w)
    end
  else (Returned, mgr, w).

End plugins.

(** *** Sample machine for the plugin manager *)

Definition samplePlugin : plugins.Metadata :=
  {| plugins.Name := "hello"; plugins.Version := "1.0";
     plugins.Url := ""; plugins.Requires := ∅; plugins.Aliases := [];
     plugins.Usage := "say hello"; plugins.Path := "/bin/fission-hello";
     plugins.ModifiedAt := 5 |}.

(** A toy library: every plugin prints the metadata of [samplePlugin]
    with time zero, a directory listing shows one plugin and one other
    binary, and the cache file decodes to the empty map. *)
Definition sampleLib : plugins.Lib :=
  {| plugins.json_Marshal := fun _ => ("{}"%string, None);
     plugins.json_UnmarshalCache := fun _ => (Some ∅, None);
     plugins.json_UnmarshalMetadata := fun _ =>
       (plugins.withModifiedAt 0 samplePlugin, None);
     plugins.path_Base := fun p => plugins.TrimPrefix p "/bin/";
     plugins.path_Join := fun d f => (d +:+ "/" +:+ f)%string;
     plugins.exec_LookPath := fun b => (("/bin/" +:+ b)%string, None);
     plugins.run := fun _ _ => ("{}"%string, None);
     plugins.pathDirs := ["/bin"%string; "/missing"%string];
     plugins.ioutil_ReadDir := fun d =>
       if bool_decide (d = "/bin"%string)
       then Some ["fission-hello"%string; "ls"%string]
       else None |}.

Definition sampleWorld : plugins.World :=
  {| plugins.files :=
       {[ "/bin/fission-hello"%string :=
            {| plugins.IsDir := false; plugins.Mode := 493;
               plugins.ModTime := 5; plugins.Content := "" |};
          "/bin/ls"%string :=
            {| plugins.IsDir := false; plugins.Mode := 493;
               plugins.ModTime := 1; plugins.Content := "" |};
          "/cache"%string :=
            {| plugins.IsDir := false; plugins.Mode := 420;
               plugins.ModTime := 100; plugins.Content := "{}" |} ]};
     plugins.now := 200;
     plugins.writable := fun _ => true |}.

(** The same machine, on which nothing can be written. *)
Definition readOnlyWorld : plugins.World :=
  {| plugins.files := plugins.files sampleWorld;
     plugins.now := 200;
     plugins.writable := fun _ => false |}.

Definition sampleManager : plugins.Manager :=
  {| plugins.Prefix := "fission-"; plugins.Registries := [];
     plugins.CachePath := "/cache"; plugins.cache := None |}.

(** * Properties *)

(** ** Machine integers *)

Lemma wrap_id z : in_int z -> wrap z = z.
Proof.
  unfold in_int, int_min, int_max, wrap. intros H.
  rewrite Z.mod_small; lia.
Qed.

Lemma wrap_in_int z : in_int (wrap z).
Proof.
  unfold in_int, int_min, int_max, wrap.
  pose proof (Z.mod_pos_bound (z + 2 ^ 63) (2 ^ 64)). lia.
Qed.

(** ** Request tracker *)

Section tracker.
Implicit Types (tr : RequestTracker) (ref : TriggerReference).
Implicit Types (c : RequestCounter) (p q : ptr).

Lemma set_Counter tr ref failedReq :
  Counter (set tr ref failedReq) = Counter tr.
Proof. unfold set. by destruct (Counter tr !! ref), failedReq. Qed.

Lemma get_set tr ref ref' failedReq :
  get (set tr ref failedReq) ref' = get tr ref'.
Proof. unfold get. by rewrite set_Counter. Qed.

Lemma set_cells tr ref failedReq :
  cells (set tr ref failedReq) =
  alter (bump failedReq) (setTarget tr ref)
        (match Counter tr !! ref with
         | Some _ => cells tr
         | None => cells tr ++ [zeroCounter]
         end).
Proof.
  unfold set, setTarget, bump.
  destruct (Counter tr !! ref), failedReq; simpl;
    by rewrite ?list_alter_alter_eq.
Qed.


(** A key that is present: its cell is bumped in place. *)
Lemma set_present tr ref failedReq p :
  Counter tr !! ref = Some p ->
  set tr ref failedReq =
  {| Counter := Counter tr;
     cells := alter (bump failedReq) p (cells tr) |}.
Proof.
  intros Hsome.
  pose proof (set_Counter tr ref failedReq) as Hm.
  pose proof (set_cells tr ref failedReq) as Hc.
  unfold setTarget in Hc. rewrite Hsome in Hc.
  destruct (set tr ref failedReq) as [m l]. simpl in *. by subst.
Qed.

Lemma bump_no_overflow failedReq c :
  counter_ok c -> TotalRequests c < int_max ->
  bump failedReq c =
  {| TotalRequests := TotalRequests c + 1;
     FailedRequests := FailedRequests c + b2z failedReq |}.
Proof.
  unfold counter_ok, bump, incTotal, incFailed, int_max.
  intros Hok Hlt.
  destruct failedReq; simpl; rewrite ?wrap_id, ?Z.add_0_r;
    try done; unfold in_int, int_min, int_max; lia.
Qed.

(** A key that is present, short of overflow: the snapshot after [set]
    shows one more request, and one more failure when [failedReq]. *)
Lemma set_present_counts tr ref failedReq p c :
  Counter tr !! ref = Some p ->
  cells tr !! p = Some c ->
  counter_ok c -> TotalRequests c < int_max ->
  get (set tr ref failedReq) ref ≫= deref (set tr ref failedReq) =
  Some {| TotalRequests := TotalRequests c + 1;
          FailedRequests := FailedRequests c + b2z failedReq |}.
Proof.
  intros Hp Hc Hok Hlt. rewrite (set_present _ _ _ p) by done.
  unfold get, deref. cbn [Counter cells]. rewrite Hp.
  cbn [mbind option_bind]. rewrite list_lookup_alter_eq, Hc.
  cbn [fmap option_fmap option_map]. by rewrite bump_no_overflow.
Qed.

Lemma record_all_snoc calls ref failedReq tr :
  record_all (calls ++ [(ref, failedReq)]) tr =
  set (record_all calls tr) ref failedReq.
Proof. unfold record_all. by rewrite foldl_app. Qed.

Lemma record_all_Counter calls tr :
  Counter (record_all calls tr) = Counter tr.
Proof.
  revert tr. induction calls as [|[ref b] calls IH]; intros tr; [done|].
  simpl. change (foldl _ ?t calls) with (record_all calls t).
  by rewrite IH, set_Counter.
Qed.

Lemma reachable_record_all calls :
  reachable (record_all calls makeRequestTracker).
Proof.
  induction calls as [|[ref b] calls IH] using rev_ind; [constructor|].
  rewrite record_all_snoc. by constructor.
Qed.

End tracker.

(** C1: after any sequence of [set] calls on a tracker made by
    [makeRequestTracker], [get] returns nil for every trigger: the counter
    [set] allocates on first use is never stored in the map, so no
    snapshot ever shows the recorded totals. *)
Theorem get_after_record_all_is_nil calls ref :
  get (record_all calls makeRequestTracker) ref = None.
Proof.
  unfold get. by rewrite record_all_Counter.
Qed.

(** The same at the smallest input: one recorded request, and the
    snapshot has no counter although a cell with total 1 was allocated. *)
Example get_after_one_set :
  let tr := set makeRequestTracker exampleTrigger false in
  get tr exampleTrigger = None /\
  cells tr = [mkRequestCounter 1 0].
Proof. by vm_compute. Qed.



(** ** Weight mappings *)

Section weights.
Implicit Types (fw : gmap string Z) (k : string) (d v : Z).

Lemma totalWeight_insert_fresh fw k v :
  fw !! k = None -> totalWeight (<[k:=v]> fw) = v + totalWeight fw.
Proof.
  intros Hk. unfold totalWeight.
  rewrite map_fold_insert_L; [done | intros; lia | done].
Qed.

Lemma totalWeight_insert fw k v :
  totalWeight (<[k:=v]> fw) = totalWeight fw - weight fw k + v.
Proof.
  unfold weight. destruct (fw !! k) as [x|] eqn:Hk; simpl.
  - rewrite <- (insert_delete_id fw k x) at 2 by done.
    rewrite <- insert_delete_eq.
    rewrite !totalWeight_insert_fresh by apply lookup_delete_eq. lia.
  - rewrite totalWeight_insert_fresh by done. lia.
Qed.

Lemma weight_insert_eq fw k v : weight (<[k:=v]> fw) k = v.
Proof. unfold weight. by rewrite lookup_insert_eq. Qed.

Lemma weight_insert_ne fw k k' v :
  k <> k' -> weight (<[k:=v]> fw) k' = weight fw k'.
Proof. intros. unfold weight. by rewrite lookup_insert_ne. Qed.

(** The two assignments of an increment, on distinct keys and without
    overflow. *)
Lemma shift_weights fw n n1 d :
  n <> n1 ->
  in_int (weight fw n + d) -> in_int (weight fw n1 - d) ->
  let fw' := subWeight n1 d (addWeight n d fw) in
  weight fw' n = weight fw n + d /\
  weight fw' n1 = weight fw n1 - d /\
  (forall k, k <> n -> k <> n1 -> fw' !! k = fw !! k) /\
  totalWeight fw' = totalWeight fw.
Proof.
  intros Hne Hn Hn1 fw'. unfold fw', subWeight, addWeight.
  rewrite (weight_insert_ne _ n n1) by done.
  rewrite !wrap_id by done.
  split; [|split; [|split]].
  - rewrite weight_insert_ne by done. apply weight_insert_eq.
  - apply weight_insert_eq.
  - intros k Hk Hk1. by rewrite !lookup_insert_ne.
  - rewrite !totalWeight_insert.
    rewrite (weight_insert_ne _ n n1) by done. lia.
Qed.
End weights.

(** ** One tick, branch by branch *)

Section tick.
Variables (m : canaryConfigMgr) (cfg : CanaryConfig) (quit : chan).

Let trig := Trigger (Spec cfg).
Let ns := Namespace (Metadata cfg).
Let name := TriggerName (Trigger (Spec cfg)).

(** The snapshot the tick starts from. *)
Let snapshot := get (requestTracker m) trig ≫= deref (requestTracker m).

Local Ltac tick_start :=
  unfold processCanaryConfig, snapshot, updatedTrigger, trig, ns, name in *;
  cbv zeta.

Lemma tick_no_counter :
  snapshot = None ->
  processCanaryConfig m cfg quit = (Returned, m, quit).
Proof.
  tick_start. by intros ->.
Qed.

Lemma tick_no_requests c :
  snapshot = Some c -> TotalRequests c = 0 ->
  processCanaryConfig m cfg quit = (Returned, m, quit).
Proof.
  tick_start. intros -> Hz.
  by rewrite bool_decide_eq_true_2.
Qed.

Lemma tick_rollback c :
  snapshot = Some c -> TotalRequests c <> 0 ->
  calculatePercentageFailure c > FailureThreshold (Spec cfg) ->
  processCanaryConfig m cfg quit = close (log CallRollback m) quit.
Proof.
  tick_start. intros -> Hnz Hgt.
  by rewrite bool_decide_eq_false_2, bool_decide_eq_true_2.
Qed.

Lemma tick_get_error c err :
  snapshot = Some c -> TotalRequests c <> 0 ->
  calculatePercentageFailure c <= FailureThreshold (Spec cfg) ->
  HTTPTriggers_Get (fissionClient m) ns name = inl err ->
  processCanaryConfig m cfg quit = (Returned, log (CallGet ns name) m, quit).
Proof.
  tick_start.
  intros -> Hnz Hle ->.
  by rewrite !bool_decide_eq_false_2 by lia.
Qed.

Lemma tick_nil_weights c t :
  snapshot = Some c -> TotalRequests c <> 0 ->
  calculatePercentageFailure c <= FailureThreshold (Spec cfg) ->
  HTTPTriggers_Get (fissionClient m) ns name = inr t ->
  FunctionWeights t = None ->
  processCanaryConfig m cfg quit = (Panicked, log (CallGet ns name) m, quit).
Proof.
  tick_start.
  intros -> Hnz Hle -> ->.
  by rewrite !bool_decide_eq_false_2 by lia.
Qed.

Lemma tick_update_error c t fw err :
  snapshot = Some c -> TotalRequests c <> 0 ->
  calculatePercentageFailure c <= FailureThreshold (Spec cfg) ->
  HTTPTriggers_Get (fissionClient m) ns name = inr t ->
  FunctionWeights t = Some fw ->
  HTTPTriggers_Update (fissionClient m) ns (updatedTrigger cfg t fw)
    = inl err ->
  processCanaryConfig m cfg quit =
  (Returned,
   log (CallUpdate ns (updatedTrigger cfg t fw)) (log (CallGet ns name) m),
   quit).
Proof.
  tick_start.
  intros -> Hnz Hle -> -> Hupd.
  rewrite !bool_decide_eq_false_2 by lia.
  by rewrite Hupd.
Qed.


End tick.

(** ** One tick, as a whole *)

Lemma newCalls_app m m' l : trace m' = trace m ++ l -> newCalls m m' = l.
Proof. unfold newCalls. intros ->. apply drop_app_length. Qed.

Lemma close_eq m quit :
  close m quit = (closeOutcome quit, log CallClose m, Closed).
Proof. by destruct quit. Qed.

Local Ltac calls_norm :=
  unfold newCalls; simpl;
  rewrite <- ?app_assoc, ?drop_app_length, ?drop_all; simpl.

(** Every tick has one of the effects of [tick_effect]; it only ever
    appends to the trace and keeps the client. *)
Lemma processCanaryConfig_effect m cfg quit :
  let r := processCanaryConfig m cfg quit in
  tick_effect m cfg quit r.1.1 (newCalls m r.1.2) (requestTracker r.1.2) r.2 /\
  trace r.1.2 = trace m ++ newCalls m r.1.2 /\
  fissionClient r.1.2 = fissionClient m.
Proof.
  unfold processCanaryConfig. cbv zeta.
  destruct (get (requestTracker m) (Trigger (Spec cfg))
              ≫= deref (requestTracker m)) as [c|] eqn:Hsnap.
  2: { calls_norm. rewrite app_nil_r. split; [by constructor | done]. }
  case_bool_decide as Hz.
  { calls_norm. rewrite app_nil_r.
    split; [by eapply eff_no_requests | done]. }
  case_bool_decide as Hgt.
  { rewrite close_eq. calls_norm.
    split; [by eapply eff_rollback | done]. }
  assert (Hle : calculatePercentageFailure c <= FailureThreshold (Spec cfg))
    by lia.
  destruct (HTTPTriggers_Get _ _ _) as [err|t] eqn:Hget.
  { calls_norm. split; [|done].
    eapply eff_running; [done..|]. by eapply eff_get_error. }
  destruct (FunctionWeights t) as [fw|] eqn:Hfw.
  2: { calls_norm. split; [|done].
       eapply eff_running; [done..|]. by eapply eff_nil_weights. }
  change {| TriggerMetadata := _; FunctionWeights := _ |}
    with (updatedTrigger cfg t fw).
  destruct (HTTPTriggers_Update _ _ _) as [err|t'] eqn:Hupd.
  { calls_norm. split; [|done].
    eapply eff_running; [done..|]. by eapply eff_update_error. }
  case_bool_decide as Hfull.
  - rewrite close_eq. calls_norm. split; [|done].
    eapply eff_running; [done..|]. by eapply eff_completed.
  - calls_norm. split; [|done].
    eapply eff_running; [done..|]. by eapply eff_incremented.
Qed.

(** C7: a tick that finds no counter for the trigger, or a counter whose
    total is zero, returns at once: no call to the trigger interface, to
    rollback, to reset or to close is made, the tracker and the [quit]
    channel are as before, and the loop goes on to wait for the next
    tick. *)
Theorem tick_without_data_is_noop m cfg quit :
  (get (requestTracker m) (Trigger (Spec cfg)) = None \/
   exists p c,
     get (requestTracker m) (Trigger (Spec cfg)) = Some p /\
     deref (requestTracker m) p = Some c /\
     TotalRequests c = 0) ->
  processCanaryConfig m cfg quit = (Returned, m, quit) /\
  newCalls m (processCanaryConfig m cfg quit).1.2 = [] /\
  forall tk ticks m0,
    m = beforeTick tk m0 ->
    ticking cfg (tk :: ticks) m0 = ticking cfg ticks m.
Proof.
  intros Hdata.
  assert (Hret : forall q, processCanaryConfig m cfg q = (Returned, m, q)).
  { intros q. destruct Hdata as [Hnil | (p & c & Hp & Hc & Hz)].
    - apply tick_no_counter. by rewrite Hnil.
    - apply (tick_no_requests _ _ _ c); [|done]. by rewrite Hp. }
  split; [apply Hret | split].
  - rewrite Hret. simpl. apply newCalls_app. by rewrite app_nil_r.
  - intros tk ticks m0 ->. simpl. by rewrite Hret.
Qed.

(** [tick_without_data_is_noop] on the tracker of a new manager. *)
Lemma tick_without_data_is_noop_witness :
  let m := mgr (MakeCanaryConfigMgr exampleApi) in
  processCanaryConfig m exampleConfig Open = (Returned, m, Open).
Proof.
  intros m. apply (tick_without_data_is_noop m exampleConfig Open).
  left. reflexivity.
Defined.

(** Ten requests recorded through [set] on the tracker of a new manager
    never reach the tick: the map is still empty and the tick takes the
    no-data path. *)
Example recorded_requests_do_not_reach_the_tick :
  let m := mgr (MakeCanaryConfigMgr (apiServing 0 100)) in
  let tk :=
    mkTick (replicate 10 (exampleTrigger, false)) (apiServing 0 100) in
  (addCanaryConfig m exampleConfig [tk]).1 = Waiting /\
  trace (addCanaryConfig m exampleConfig [tk]).2 = [].
Proof. by vm_compute. Qed.

(** C8: within one tick the tracker is reset exactly when the weight
    update succeeds. A reset call is made iff an update call was made and
    answered without error; it is for the configuration's trigger and the
    tracker after the tick is the reset one; without it the tracker is
    untouched; and when the update is answered with an error (a conflict,
    say) the tick returns with the tracker and the [quit] channel as they
    were. *)
Theorem reset_exactly_on_update_success m cfg quit out m' quit' :
  processCanaryConfig m cfg quit = (out, m', quit') ->
  let trig := Trigger (Spec cfg) in
  let new := newCalls m m' in
  (CallReset trig ∈ new <->
   exists ns t t', CallUpdate ns t ∈ new /\
                   HTTPTriggers_Update (fissionClient m) ns t = inr t') /\
  (forall ref, CallReset ref ∈ new ->
     ref = trig /\ requestTracker m' = reset (requestTracker m) trig) /\
  (CallReset trig ∉ new -> requestTracker m' = requestTracker m) /\
  (forall ns t err,
     CallUpdate ns t ∈ new ->
     HTTPTriggers_Update (fissionClient m) ns t = inl err ->
     out = Returned /\ quit' = quit /\ requestTracker m' = requestTracker m).
Proof.
  intros Htick trig new.
  destruct (processCanaryConfig_effect m cfg quit) as (Heff & _ & _).
  rewrite Htick in Heff. simpl in Heff. fold new in Heff.
  inversion Heff as [ | | | c Hc Hnz Hle o n tr q Hinc ]; subst;
    [set_solver.. |].
  inversion Hinc; subst; try set_solver.
  - (* the update was refused *)
    split; [|set_solver]. split; [set_solver|].
    intros (ns & t0 & t1 & Hin & Hok).
    assert (ns = Namespace (Metadata cfg) /\ t0 = updatedTrigger cfg t fw)
      as [-> ->] by set_solver.
    congruence.
  - (* the update went through, more increments to come *)
    split; [|split; [set_solver | split; [set_solver|]]].
    + split; [|set_solver]. intros _. eexists _, _, _. split; [|done].
      set_solver.
    + intros ns t0 err Hin Herr.
      assert (ns = Namespace (Metadata cfg) /\ t0 = updatedTrigger cfg t fw)
        as [-> ->] by set_solver.
      congruence.
  - (* the update went through and the candidate is at 100 *)
    split; [|split; [set_solver | split; [set_solver|]]].
    + split; [|set_solver]. intros _. eexists _, _, _. split; [|done].
      set_solver.
    + intros ns t0 err Hin Herr.
      assert (ns = Namespace (Metadata cfg) /\ t0 = updatedTrigger cfg t fw)
        as [-> ->] by set_solver.
      congruence.
Qed.

(** [reset_exactly_on_update_success] on a tick whose update is answered
    with a conflict: nothing is reset and the channel stays open. *)
Lemma reset_exactly_on_update_success_witness :
  let m := mgrWith (apiConflict 0 100) (trackerWith 10 0) in
  let r := processCanaryConfig m exampleConfig Open in
  r.1.1 = Returned /\ r.2 = Open /\ requestTracker r.1.2 = trackerWith 10 0.
Proof.
  intros m r.
  destruct (reset_exactly_on_update_success m exampleConfig Open
              r.1.1 r.1.2 r.2) as (_ & _ & _ & Hfail).
  - unfold r.
    by destruct (processCanaryConfig m exampleConfig Open) as [[? ?] ?].
  - apply (Hfail "default"%string
             (updatedTrigger exampleConfig
                (mkHTTPTrigger (mkObjectMeta "default" "route")
                   (Some (weightsOf 0 100)))
                (weightsOf 0 100))
             Conflict).
    + vm_compute. apply list_elem_of_further, list_elem_of_here.
    + reflexivity.
Defined.

(** The one [Update] call a tick can make carries the shifted copy of the
    trigger it read. *)
Lemma tick_effect_update m cfg quit out new tr quit' ns t' :
  tick_effect m cfg quit out new tr quit' ->
  CallUpdate ns t' ∈ new ->
  exists t fw,
    HTTPTriggers_Get (fissionClient m) (Namespace (Metadata cfg))
      (TriggerName (Trigger (Spec cfg))) = inr t /\
    FunctionWeights t = Some fw /\
    ns = Namespace (Metadata cfg) /\
    t' = updatedTrigger cfg t fw.
Proof.
  intros Heff Hin. destruct Heff as [ | | | c Hc Hnz Hle o n tr q Hinc ];
    [set_solver.. |].
  destruct Hinc; [set_solver.. | | | ];
    (exists t, fw; repeat split; [done | done | set_solver | set_solver]).
Qed.
(** C9: the trigger a tick sends to [Update] is the one it read with the
    weight of FunctionN raised by WeightIncrement and the weight of
    FunctionNminus1 lowered by it (the two being distinct functions and
    the results within [int]); every other entry of the mapping is as
    read, and the sum of all weights is the same. *)
Theorem update_shifts_two_weights m cfg quit out m' quit' ns t' t fw :
  processCanaryConfig m cfg quit = (out, m', quit') ->
  CallUpdate ns t' ∈ newCalls m m' ->
  HTTPTriggers_Get (fissionClient m) (Namespace (Metadata cfg))
    (TriggerName (Trigger (Spec cfg))) = inr t ->
  FunctionWeights t = Some fw ->
  FunctionN (Spec cfg) <> FunctionNminus1 (Spec cfg) ->
  in_int (weight fw (FunctionN (Spec cfg)) + WeightIncrement (Spec cfg)) ->
  in_int (weight fw (FunctionNminus1 (Spec cfg))
          - WeightIncrement (Spec cfg)) ->
  exists fw',
    FunctionWeights t' = Some fw' /\
    TriggerMetadata t' = TriggerMetadata t /\
    weight fw' (FunctionN (Spec cfg)) =
      weight fw (FunctionN (Spec cfg)) + WeightIncrement (Spec cfg) /\
    weight fw' (FunctionNminus1 (Spec cfg)) =
      weight fw (FunctionNminus1 (Spec cfg)) - WeightIncrement (Spec cfg) /\
    (forall k, k <> FunctionN (Spec cfg) -> k <> FunctionNminus1 (Spec cfg) ->
               fw' !! k = fw !! k) /\
    totalWeight fw' = totalWeight fw.
Proof.
  intros Htick Hin Hget Hfw Hne HN HN1.
  destruct (processCanaryConfig_effect m cfg quit) as (Heff & _ & _).
  rewrite Htick in Heff. simpl in Heff.
  destruct (tick_effect_update _ _ _ _ _ _ _ _ _ Heff Hin)
    as (t0 & fw0 & Hget0 & Hfw0 & _ & Ht').
  assert (t0 = t) as -> by congruence.
  assert (fw0 = fw) as -> by congruence.
  subst t'. eexists. split; [reflexivity|]. split; [reflexivity|].
  by apply shift_weights.
Qed.

(** [update_shifts_two_weights] on a trigger split 40/60 with a third
    function at 0: the update carries 60/40 and the same total. *)
Lemma update_shifts_two_weights_witness :
  let fw := <["fn-v0"%string := 0]> (weightsOf 40 60) in
  let t := mkHTTPTrigger (mkObjectMeta "default" "route") (Some fw) in
  exists fw',
    FunctionWeights (updatedTrigger exampleConfig t fw) = Some fw' /\
    weight fw' "fn-v2" = 60 /\ weight fw' "fn-v1" = 40 /\
    fw' !! "fn-v0"%string = Some 0 /\
    totalWeight fw' = totalWeight fw.
Proof.
  intros fw t.
  set (client := {| HTTPTriggers_Get := fun _ _ => inr t;
                    HTTPTriggers_Update := fun _ t => inr t |}).
  set (m := mgrWith client (trackerWith 10 0)).
  destruct (update_shifts_two_weights m exampleConfig Open
              (processCanaryConfig m exampleConfig Open).1.1
              (processCanaryConfig m exampleConfig Open).1.2
              (processCanaryConfig m exampleConfig Open).2
              "default" (updatedTrigger exampleConfig t fw) t fw)
    as (fw' & Hfw' & _ & HN & HN1 & Hother & Hsum).
  - by destruct (processCanaryConfig m exampleConfig Open) as [[? ?] ?].
  - vm_compute. apply list_elem_of_further, list_elem_of_here.
  - reflexivity.
  - reflexivity.
  - by vm_compute.
  - by vm_compute.
  - by vm_compute.
  - exists fw'. split; [done|]. split; [exact HN|]. split; [exact HN1|].
    split; [|exact Hsum].
    rewrite Hother by (by vm_compute). reflexivity.
Defined.

(** ** The rollback guard *)

(** Above the threshold the tick calls rollback, closes [quit] and makes
    no call to the trigger interface. *)
Lemma tick_above_threshold m cfg p c :
  get (requestTracker m) (Trigger (Spec cfg)) = Some p ->
  deref (requestTracker m) p = Some c ->
  TotalRequests c <> 0 ->
  calculatePercentageFailure c > FailureThreshold (Spec cfg) ->
  processCanaryConfig m cfg Open =
  (Returned, log CallClose (log CallRollback m), Closed).
Proof.
  intros Hp Hc Hnz Hgt.
  rewrite (tick_rollback m cfg Open c); [done | by rewrite Hp | done..].
Qed.

(** After such a tick the loop has returned: whatever ticks follow, no
    further call is made. *)
Lemma ticking_stops_above_threshold cfg tk ticks m0 p c :
  let m := beforeTick tk m0 in
  get (requestTracker m) (Trigger (Spec cfg)) = Some p ->
  deref (requestTracker m) p = Some c ->
  TotalRequests c <> 0 ->
  calculatePercentageFailure c > FailureThreshold (Spec cfg) ->
  ticking cfg (tk :: ticks) m0 =
  (Stopped, log CallClose (log CallRollback m)).
Proof.
  intros m Hp Hc Hnz Hgt. simpl. fold m.
  by rewrite (tick_above_threshold m cfg p c).
Qed.

(** At the threshold itself the guard does not fire, whatever the
    percentage function computes elsewhere: the tick makes no rollback
    call and goes on to read the trigger. *)
Lemma tick_at_threshold_reads_trigger m cfg quit p c :
  get (requestTracker m) (Trigger (Spec cfg)) = Some p ->
  deref (requestTracker m) p = Some c ->
  TotalRequests c <> 0 ->
  calculatePercentageFailure c = FailureThreshold (Spec cfg) ->
  let new := newCalls m (processCanaryConfig m cfg quit).1.2 in
  (CallRollback ∉ new) /\
  (CallGet (Namespace (Metadata cfg)) (TriggerName (Trigger (Spec cfg)))
     ∈ new).
Proof.
  intros Hp Hc Hnz Heq new.
  assert (Hsnap : get (requestTracker m) (Trigger (Spec cfg))
                    ≫= deref (requestTracker m) = Some c)
    by (by rewrite Hp).
  destruct (processCanaryConfig_effect m cfg quit) as (Heff & _ & _).
  fold new in Heff.
  destruct Heff as [ E | c0 E Hz | c0 E _ Hgt | c0 E _ _ ? ? ? ? Hinc ];
    rewrite Hsnap in E; try discriminate;
    injection E as <-; try lia.
  destruct Hinc; set_solver.
Qed.

(** C2: with FailureThreshold 10 and a window of 10 requests of which 1
    failed, the failure percentage is 10, at the threshold. The tick does
    not roll back: it reads the trigger, sends an update that raises the
    candidate from 0 to 20 and lowers the incumbent from 100 to 80, resets
    the counters and leaves [quit] open, so the loop keeps ticking. *)
Theorem tick_at_threshold_increments :
  let m := mgrWith (apiServing 0 100) (trackerWith 10 1) in
  calculatePercentageFailure (mkRequestCounter 10 1) =
    FailureThreshold (Spec exampleConfig) /\
  processCanaryConfig m exampleConfig Open =
    (Returned,
     {| fissionClient := apiServing 0 100;
        requestTracker := trackerWith 0 0;
        trace := [CallGet "default" "route";
                  CallUpdate "default"
                    (mkHTTPTrigger (mkObjectMeta "default" "route")
                       (Some (weightsOf 20 80)));
                  CallReset exampleTrigger] |},
     Open) /\
  (addCanaryConfig m exampleConfig [mkTick [] (apiServing 0 100)]).1 = Waiting.
Proof. by vm_compute. Qed.

(** One more failure and the same tick rolls back and stops the loop. *)
Example tick_above_threshold_rolls_back :
  let m := mgrWith (apiServing 0 100) (trackerWith 10 2) in
  addCanaryConfig m exampleConfig
    [mkTick [] (apiServing 0 100); mkTick [] (apiServing 0 100)] =
  (Stopped, log CallClose (log CallRollback m)).
Proof. by vm_compute. Qed.

(** ** Unclamped weights *)

(** C3: with the candidate at 90, the incumbent at 10 and WeightIncrement
    20, the tick sends an update with the candidate at 110 and the
    incumbent at -10: the new weights are current + increment and
    current - increment, not min(100, ...) and max(0, ...), and lie
    outside [0,100]. *)
Theorem increment_is_not_clamped :
  let m := mgrWith (apiServing 90 10) (trackerWith 10 0) in
  newCalls m (processCanaryConfig m exampleConfig Open).1.2 =
    [CallGet "default" "route";
     CallUpdate "default"
       (mkHTTPTrigger (mkObjectMeta "default" "route")
          (Some (weightsOf 110 (-10))));
     CallReset exampleTrigger;
     CallClose] /\
  110 <> Z.min 100 (90 + WeightIncrement (Spec exampleConfig)) /\
  -10 <> Z.max 0 (10 - WeightIncrement (Spec exampleConfig)).
Proof. by vm_compute. Qed.

(** ** A trigger that is gone *)

(** Whatever the error of the trigger read, the tick returns with [quit]
    as it was. *)
Lemma tick_get_error_keeps_quit m cfg quit p c err :
  get (requestTracker m) (Trigger (Spec cfg)) = Some p ->
  deref (requestTracker m) p = Some c ->
  TotalRequests c <> 0 ->
  calculatePercentageFailure c <= FailureThreshold (Spec cfg) ->
  HTTPTriggers_Get (fissionClient m) (Namespace (Metadata cfg))
    (TriggerName (Trigger (Spec cfg))) = inl err ->
  (processCanaryConfig m cfg quit).2 = quit.
Proof.
  intros Hp Hc Hnz Hle Hget.
  rewrite (tick_get_error m cfg quit c err); [done | by rewrite Hp | done..].
Qed.

(** C5: with a healthy window and a trigger read answered NotFound, the
    tick returns with [quit] open and the tracker untouched; over two such
    ticks the loop reads the trigger twice and is still waiting for the
    next tick. *)
Theorem loop_survives_not_found :
  let m := mgrWith apiNotFound (trackerWith 10 0) in
  processCanaryConfig m exampleConfig Open =
    (Returned, log (CallGet "default" "route") m, Open) /\
  addCanaryConfig m exampleConfig
    [mkTick [] apiNotFound; mkTick [] apiNotFound] =
    (Waiting,
     log (CallGet "default" "route") (log (CallGet "default" "route") m)).
Proof. by vm_compute. Qed.

(** ** The add handler *)

Lemma activeLoops_AddFunc id obj c :
  activeLoops id (AddFunc obj c) =
  if bool_decide (Metadata obj = id /\
                  0 < WeightIncrementDuration (Spec obj))
  then S (activeLoops id c) else activeLoops id c.
Proof.
  unfold activeLoops, AddFunc, addCanaryConfig. simpl.
  rewrite filter_app, length_app.
  repeat case_bool_decide; simpl;
    first [ rewrite filter_cons_True by (simpl; intuition (done || lia))
          | rewrite filter_cons_False by (simpl; intuition (done || lia)) ];
    simpl; lia.
Qed.

(** C4, as the code has it: the add handler keeps no record of the loops
    it has started. An Added event for a configuration with a positive
    tick interval starts one more loop for its identity, whether or not
    one is active already, and touches the loops of no other identity. *)
Theorem AddFunc_starts_a_loop obj c :
  0 < WeightIncrementDuration (Spec obj) ->
  activeLoops (Metadata obj) (AddFunc obj c) =
    S (activeLoops (Metadata obj) c) /\
  forall id, id <> Metadata obj ->
             activeLoops id (AddFunc obj c) = activeLoops id c.
Proof.
  intros Hpos. split.
  - by rewrite activeLoops_AddFunc, bool_decide_eq_true_2.
  - intros id Hid. rewrite activeLoops_AddFunc, bool_decide_eq_false_2; [done|].
    intros [Heq _]. by apply Hid.
Qed.

(** [AddFunc_starts_a_loop] twice on a new controller: two loops. *)
Lemma AddFunc_starts_a_loop_witness :
  activeLoops (Metadata exampleConfig)
    (AddFunc exampleConfig
       (AddFunc exampleConfig (MakeCanaryConfigMgr exampleApi))) = 2%nat.
Proof.
  destruct (AddFunc_starts_a_loop exampleConfig
              (AddFunc exampleConfig (MakeCanaryConfigMgr exampleApi)))
    as [-> _]; [by vm_compute|].
  destruct (AddFunc_starts_a_loop exampleConfig
              (MakeCanaryConfigMgr exampleApi))
    as [-> _]; [by vm_compute|].
  reflexivity.
Defined.

(** Two consecutive Added events for one identity do not leave exactly
    one active loop, nor at most one. *)
Lemma two_added_events_not_one_loop :
  ~ (activeLoops (Metadata exampleConfig)
       (AddFunc exampleConfig
          (AddFunc exampleConfig (MakeCanaryConfigMgr exampleApi))) <= 1)%nat.
Proof. vm_compute. lia. Qed.

(** ** The Prometheus query *)

(** A failed query is logged and the function goes on to inspect the
    value: it panics on a nil value and returns otherwise. *)
Lemma GetFunctionFailurePercentage_on_error promApi funcName funcNs ts val e :
  Query promApi
    ("fission_function_errors_total{name=" +:+ funcName +:+
     ",namespace=" +:+ funcNs +:+ "}")%string ts = (val, Some e) ->
  let r := GetFunctionFailurePercentage promApi funcName funcNs ts in
  (exists rest, r.2 = LogQueryError e :: rest) /\
  (r.1 = match val with None => Panicked | Some _ => Returned end).
Proof.
  intros Hq. unfold GetFunctionFailurePercentage. rewrite Hq.
  destruct val as [[| | |]|]; simpl; eauto.
Qed.

(** C6: on a query that fails (nil value, non-nil error), whatever the
    function name, namespace, time and error, the function logs the error
    and panics on [val.Type()]; it has no result through which an error
    could reach the caller. *)
Theorem query_failure_is_not_returned funcName funcNs ts e :
  GetFunctionFailurePercentage (failingProm e) funcName funcNs ts =
  (Panicked, [LogQueryError e]).
Proof.
  apply injective_projections.
  - by rewrite (proj2 (GetFunctionFailurePercentage_on_error
                         (failingProm e) funcName funcNs ts None e eq_refl)).
  - reflexivity.
Qed.


(** * Further properties *)

(** ** Recording on a populated tracker *)

Section recording.
Implicit Types (tr : RequestTracker) (ref : TriggerReference).
Implicit Types (c : RequestCounter) (p q : nat).

Lemma snapshotOf_Some tr ref c :
  snapshotOf tr ref = Some c <->
  exists p, Counter tr !! ref = Some p /\ cells tr !! p = Some c.
Proof.
  unfold snapshotOf, get, deref. split.
  - destruct (Counter tr !! ref) as [p|] eqn:Hp; simpl; [eauto | done].
  - by intros (p & -> & Hc).
Qed.

(** A cell other than the one [set] works on is left alone. *)
Lemma set_cells_other tr ref failedReq q c :
  setTarget tr ref <> q ->
  cells tr !! q = Some c ->
  cells (set tr ref failedReq) !! q = Some c.
Proof.
  intros Hne Hq. rewrite set_cells, list_lookup_alter_ne by done.
  destruct (Counter tr !! ref); [done|]. by apply lookup_app_l_Some.
Qed.

Lemma setTarget_fresh tr ref q c :
  Counter tr !! ref = None -> cells tr !! q = Some c -> setTarget tr ref <> q.
Proof.
  intros Hnone Hq. unfold setTarget. rewrite Hnone.
  apply lookup_lt_Some in Hq. lia.
Qed.

Lemma callsFor_cons_eq ref failedReq calls :
  callsFor ref ((ref, failedReq) :: calls) =
  (ref, failedReq) :: callsFor ref calls.
Proof. unfold callsFor. by rewrite filter_cons_True. Qed.

Lemma callsFor_cons_ne ref ref' failedReq calls :
  ref' <> ref ->
  callsFor ref ((ref', failedReq) :: calls) = callsFor ref calls.
Proof. intros. unfold callsFor. by rewrite filter_cons_False. Qed.

Lemma failedCalls_cons ref failedReq calls :
  Z.of_nat (length (failedCalls ((ref, failedReq) :: calls))) =
  b2z failedReq + Z.of_nat (length (failedCalls calls)).
Proof.
  unfold failedCalls. destruct failedReq.
  - rewrite filter_cons_True by done. simpl length. unfold b2z. lia.
  - rewrite filter_cons_False by done. unfold b2z. lia.
Qed.

(** X1: for a trigger that has a counter in the map (under a pointer no
    other trigger shares), the snapshot after any sequence of [set] calls
    shows the previous total plus the number of calls for that trigger and
    the previous failures plus the number of those calls that failed, as
    long as the total stays within [int]. *)
Theorem record_all_counts_present calls tr ref p c :
  Counter tr !! ref = Some p ->
  cells tr !! p = Some c ->
  (forall ref', Counter tr !! ref' = Some p -> ref' = ref) ->
  counter_ok c ->
  TotalRequests c + Z.of_nat (length (callsFor ref calls)) <= int_max ->
  snapshotOf (record_all calls tr) ref =
  Some {| TotalRequests :=
            TotalRequests c + Z.of_nat (length (callsFor ref calls));
          FailedRequests :=
            FailedRequests c +
            Z.of_nat (length (failedCalls (callsFor ref calls))) |}.
Proof.
  revert tr c.
  induction calls as [|[r failedReq] calls IH];
    intros tr c Hp Hc Halias Hok Hmax.
  - simpl. apply snapshotOf_Some. exists p. split; [done|].
    rewrite Hc. f_equal. destruct c; simpl. f_equal; lia.
  - change (record_all ((r, failedReq) :: calls) tr)
      with (record_all calls (set tr r failedReq)).
    destruct (decide (r = ref)) as [->|Hne].
    + rewrite callsFor_cons_eq in *. simpl length in Hmax.
      rewrite failedCalls_cons. simpl length.
      assert (Hlt : TotalRequests c < int_max) by lia.
      rewrite (IH (set tr ref failedReq) (bump failedReq c)).
      * rewrite bump_no_overflow by done. simpl. f_equal. f_equal; lia.
      * by rewrite set_Counter.
      * rewrite (set_present _ _ _ p) by done. simpl.
        by rewrite list_lookup_alter_eq, Hc.
      * intros ref'. rewrite set_Counter. apply Halias.
      * rewrite bump_no_overflow by done. unfold counter_ok in *. simpl.
        destruct failedReq; unfold b2z; lia.
      * rewrite bump_no_overflow by done. simpl. lia.
    + rewrite callsFor_cons_ne in * by done.
      apply (IH (set tr r failedReq) c); try done.
      * by rewrite set_Counter.
      * apply set_cells_other; [|done].
        destruct (Counter tr !! r) as [q|] eqn:Hr.
        -- unfold setTarget. rewrite Hr. intros ->. by apply Hne, Halias.
        -- by eapply setTarget_fresh.
      * intros ref'. rewrite set_Counter. apply Halias.
Qed.

(** [record_all_counts_present] on a counter at 10 requests, 1 failed:
    three calls for the trigger, two of them failed, and one call for
    another trigger. *)
Lemma record_all_counts_present_witness :
  snapshotOf
    (record_all [(exampleTrigger, true);
                 (mkTriggerReference "default" "other", true);
                 (exampleTrigger, false);
                 (exampleTrigger, true)]
       (trackerWith 10 1))
    exampleTrigger = Some (mkRequestCounter 13 3).
Proof.
  rewrite (record_all_counts_present _ (trackerWith 10 1) exampleTrigger
             0%nat (mkRequestCounter 10 1)).
  - by vm_compute.
  - reflexivity.
  - reflexivity.
  - intros ref'. unfold trackerWith. simpl.
    intros H. apply lookup_singleton_Some in H. by destruct H.
  - unfold counter_ok. simpl. lia.
  - by vm_compute.
Defined.

(** X2: a [set] for one trigger leaves the snapshot of every trigger
    stored under another pointer as it was. *)
Theorem set_keeps_other_snapshots tr ref ref' failedReq c :
  snapshotOf tr ref' = Some c ->
  get tr ref <> get tr ref' ->
  snapshotOf (set tr ref failedReq) ref' = Some c.
Proof.
  intros Hsnap Hne. apply snapshotOf_Some in Hsnap as (q & Hq & Hc).
  apply snapshotOf_Some. exists q. rewrite set_Counter. split; [done|].
  apply set_cells_other; [|done]. unfold get in Hne.
  destruct (Counter tr !! ref) as [p|] eqn:Hp.
  - unfold setTarget. rewrite Hp. intros ->. by rewrite Hq in Hne.
  - by eapply setTarget_fresh.
Qed.

(** [set_keeps_other_snapshots] with two triggers under two pointers. *)
Lemma set_keeps_other_snapshots_witness :
  let other := mkTriggerReference "default" "other" in
  let tr := {| Counter := {[ exampleTrigger := 0%nat; other := 1%nat ]};
               cells := [mkRequestCounter 4 1; mkRequestCounter 7 0] |} in
  snapshotOf (set tr exampleTrigger true) other = Some (mkRequestCounter 7 0).
Proof.
  intros other tr.
  apply (set_keeps_other_snapshots tr exampleTrigger other true).
  - by vm_compute.
  - by vm_compute.
Defined.

(** X3: at the top of [int] the total wraps: a [set] on a counter whose
    TotalRequests is the largest [int] leaves it at the smallest one, and
    0 <= FailedRequests <= TotalRequests no longer holds. *)
Theorem set_wraps_at_int_max tr ref failedReq c :
  snapshotOf tr ref = Some c ->
  TotalRequests c = int_max ->
  exists c',
    snapshotOf (set tr ref failedReq) ref = Some c' /\
    TotalRequests c' = int_min /\
    ~ counter_ok c'.
Proof.
  intros Hsnap Hmax. apply snapshotOf_Some in Hsnap as (p & Hp & Hc).
  exists (bump failedReq c).
  assert (Ht : TotalRequests (bump failedReq c) = int_min).
  { unfold bump, incTotal. destruct failedReq; simpl; rewrite Hmax; done. }
  split; [|split; [done|]].
  - apply snapshotOf_Some. exists p. rewrite set_Counter. split; [done|].
    rewrite (set_present _ _ _ p) by done. simpl.
    by rewrite list_lookup_alter_eq, Hc.
  - unfold counter_ok. rewrite Ht. unfold int_min. lia.
Qed.

(** [set_wraps_at_int_max] on the sample tracker at the largest total. *)
Lemma set_wraps_at_int_max_witness :
  exists c',
    snapshotOf (set (trackerWith int_max 0) exampleTrigger false)
      exampleTrigger = Some c' /\
    TotalRequests c' = int_min /\ ~ counter_ok c'.
Proof.
  apply (set_wraps_at_int_max (trackerWith int_max 0) exampleTrigger false
           (mkRequestCounter int_max 0)); reflexivity.
Defined.

End recording.

(** ** The calls of a tick *)

(** X4: the calls a tick makes have one of six shapes: none; rollback
    then close; one trigger read; a read and an update; a read, an update
    and a reset; or those three and a close. So a tick makes at most one
    update, only after reading the same trigger and with the shifted copy
    of what it read, never together with a rollback, and a close is always
    its last call. *)
Theorem tick_calls_shape m cfg quit :
  let new := newCalls m (processCanaryConfig m cfg quit).1.2 in
  let ns := Namespace (Metadata cfg) in
  let read := CallGet ns (TriggerName (Trigger (Spec cfg))) in
  new = [] \/
  new = [CallRollback; CallClose] \/
  new = [read] \/
  exists t fw,
    HTTPTriggers_Get (fissionClient m) ns (TriggerName (Trigger (Spec cfg)))
      = inr t /\
    FunctionWeights t = Some fw /\
    let upd := CallUpdate ns (updatedTrigger cfg t fw) in
    new = [read; upd] \/
    new = [read; upd; CallReset (Trigger (Spec cfg))] \/
    new = [read; upd; CallReset (Trigger (Spec cfg)); CallClose].
Proof.
  intros new ns read.
  destruct (processCanaryConfig_effect m cfg quit) as (Heff & _ & _).
  fold new in Heff.
  destruct Heff as [ | | | c Hc Hnz Hle out new' tr quit' Hinc ]; auto.
  destruct Hinc; auto; right; right; right; exists t, fw; auto 10.
Qed.

(** X5: on an open [quit] channel a tick panics in exactly one case: it
    has data at or below the threshold, the trigger read succeeds, and the
    trigger's weight mapping is nil. *)
Theorem tick_panics_iff_nil_weights m cfg :
  (processCanaryConfig m cfg Open).1.1 = Panicked <->
  exists c t,
    snapshotOf (requestTracker m) (Trigger (Spec cfg)) = Some c /\
    TotalRequests c <> 0 /\
    calculatePercentageFailure c <= FailureThreshold (Spec cfg) /\
    HTTPTriggers_Get (fissionClient m) (Namespace (Metadata cfg))
      (TriggerName (Trigger (Spec cfg))) = inr t /\
    FunctionWeights t = None.
Proof.
  split.
  - intros Hpanic.
    destruct (processCanaryConfig_effect m cfg Open) as (Heff & _ & _).
    rewrite Hpanic in Heff.
    inversion Heff as [ | | | c Hc Hnz Hle out new tr quit' Hinc ]; subst.
    inversion Hinc; subst. by exists c, t.
  - intros (c & t & Hc & Hnz & Hle & Hget & Hnil).
    by rewrite (tick_nil_weights m cfg Open c t).
Qed.

(** ** How a tick ends the loop, or does not *)



(** X7: when the trigger read fails, with whatever error, the tick makes
    that one call and returns: no update, no reset, [quit] stays open, and
    the loop goes on with the next tick. *)
Theorem read_error_is_retried cfg tk ticks m0 c err :
  let m := beforeTick tk m0 in
  snapshotOf (requestTracker m) (Trigger (Spec cfg)) = Some c ->
  TotalRequests c <> 0 ->
  calculatePercentageFailure c <= FailureThreshold (Spec cfg) ->
  HTTPTriggers_Get (api tk) (Namespace (Metadata cfg))
    (TriggerName (Trigger (Spec cfg))) = inl err ->
  ticking cfg (tk :: ticks) m0 =
  ticking cfg ticks
    (log (CallGet (Namespace (Metadata cfg))
            (TriggerName (Trigger (Spec cfg)))) m).
Proof.
  intros m Hc Hnz Hle Hget. simpl. fold m.
  by rewrite (tick_get_error m cfg Open c err).
Qed.

(** [read_error_is_retried] on a trigger read answered with an error,
    followed by a tick on which the read succeeds. *)
Lemma read_error_is_retried_witness :
  let failing :=
    {| HTTPTriggers_Get := fun _ _ => inl OtherError;
       HTTPTriggers_Update := fun _ t => inr t |} in
  let m0 := mgrWith exampleApi (trackerWith 10 0) in
  ticking exampleConfig [mkTick [] failing; mkTick [] (apiServing 80 20)] m0 =
  ticking exampleConfig [mkTick [] (apiServing 80 20)]
    (log (CallGet "default" "route") (beforeTick (mkTick [] failing) m0)).
Proof.
  intros failing m0.
  apply (read_error_is_retried exampleConfig (mkTick [] failing)
           [mkTick [] (apiServing 80 20)] m0 (mkRequestCounter 10 0)
           OtherError).
  - reflexivity.
  - by vm_compute.
  - by vm_compute.
  - reflexivity.
Defined.




(** A tracker without entries stays without entries over a tick, and the
    tick makes no call. *)
Lemma tick_on_empty_map m cfg quit :
  Counter (requestTracker m) = ∅ ->
  processCanaryConfig m cfg quit = (Returned, m, quit).
Proof.
  intros Hm. apply tick_no_counter. unfold get. by rewrite Hm.
Qed.

(** X10: a loop started on a manager whose tracker has no entry (as
    [MakeCanaryConfigMgr] leaves it) never makes a call, however many
    ticks pass and whatever outcomes the request paths record through
    [set] in between: the map stays empty, so every tick takes the no-data
    path and the loop keeps waiting. *)
Theorem loop_on_empty_tracker_is_idle cfg ticks m :
  Counter (requestTracker m) = ∅ ->
  0 < WeightIncrementDuration (Spec cfg) ->
  (addCanaryConfig m cfg ticks).1 = Waiting /\
  trace (addCanaryConfig m cfg ticks).2 = trace m /\
  Counter (requestTracker (addCanaryConfig m cfg ticks).2) = ∅.
Proof.
  intros Hm Hpos. unfold addCanaryConfig.
  rewrite bool_decide_eq_false_2 by lia.
  revert m Hm. induction ticks as [|tk ticks IH]; intros m Hm; [done|].
  simpl.
  assert (Hm' : Counter (requestTracker (beforeTick tk m)) = ∅).
  { simpl. by rewrite record_all_Counter. }
  rewrite tick_on_empty_map by done.
  destruct (IH _ Hm') as (Hst & Htr & Hc). by rewrite Hst, Htr, Hc.
Qed.

(** [loop_on_empty_tracker_is_idle] on a new manager, with ten requests
    recorded before each of two ticks. *)
Lemma loop_on_empty_tracker_is_idle_witness :
  let tk := mkTick (replicate 10 (exampleTrigger, false)) exampleApi in
  let r := addCanaryConfig (mgr (MakeCanaryConfigMgr exampleApi))
             exampleConfig [tk; tk] in
  r.1 = Waiting /\ trace r.2 = [].
Proof.
  intros tk r.
  destruct (loop_on_empty_tracker_is_idle exampleConfig [tk; tk]
              (mgr (MakeCanaryConfigMgr exampleApi)))
    as (Hst & Htr & _).
  - reflexivity.
  - by vm_compute.
  - by split.
Defined.

(** ** Edge cases of the weight update *)

Lemma wrap_sub_wrap a d : wrap (wrap a - d) = wrap (a - d).
Proof.
  unfold wrap. f_equal.
  replace ((a + 2 ^ 63) `mod` 2 ^ 64 - 2 ^ 63 - d + 2 ^ 63)
    with ((a + 2 ^ 63) `mod` 2 ^ 64 - d) by lia.
  rewrite Zminus_mod_idemp_l. f_equal. lia.
Qed.

(** The trigger sent by a tick, as in [tick_effect_update], from the
    result of the tick. *)
Lemma tick_update_call m cfg quit out m' quit' ns t' t fw :
  processCanaryConfig m cfg quit = (out, m', quit') ->
  CallUpdate ns t' ∈ newCalls m m' ->
  HTTPTriggers_Get (fissionClient m) (Namespace (Metadata cfg))
    (TriggerName (Trigger (Spec cfg))) = inr t ->
  FunctionWeights t = Some fw ->
  t' = updatedTrigger cfg t fw.
Proof.
  intros Htick Hin Hget Hfw.
  destruct (processCanaryConfig_effect m cfg quit) as (Heff & _ & _).
  rewrite Htick in Heff. simpl in Heff.
  destruct (tick_effect_update _ _ _ _ _ _ _ _ _ Heff Hin)
    as (t0 & fw0 & Hget0 & Hfw0 & _ & ->).
  congruence.
Qed.

(** X11: when the configuration names the same function as FunctionN and
    as FunctionNminus1, the update a tick sends carries every weight as it
    was read (the increment is added and taken away again, also across
    an overflow): the candidate's weight does not move. *)
Theorem same_function_update_keeps_weights
    m cfg quit out m' quit' ns t' t fw :
  processCanaryConfig m cfg quit = (out, m', quit') ->
  CallUpdate ns t' ∈ newCalls m m' ->
  HTTPTriggers_Get (fissionClient m) (Namespace (Metadata cfg))
    (TriggerName (Trigger (Spec cfg))) = inr t ->
  FunctionWeights t = Some fw ->
  FunctionN (Spec cfg) = FunctionNminus1 (Spec cfg) ->
  in_int (weight fw (FunctionN (Spec cfg))) ->
  exists fw',
    FunctionWeights t' = Some fw' /\
    (forall k, weight fw' k = weight fw k) /\
    totalWeight fw' = totalWeight fw.
Proof.
  intros Htick Hin Hget Hfw Hsame Hint.
  rewrite (tick_update_call _ _ _ _ _ _ _ _ _ _ Htick Hin Hget Hfw).
  unfold updatedTrigger, subWeight, addWeight. rewrite <- Hsame.
  set (n := FunctionN (Spec cfg)) in *.
  set (d := WeightIncrement (Spec cfg)).
  eexists. split; [reflexivity|].
  rewrite weight_insert_eq, wrap_sub_wrap.
  replace (weight fw n + d - d) with (weight fw n) by lia.
  rewrite wrap_id by done. split.
  - intros k. destruct (decide (k = n)) as [->|Hk].
    + by rewrite weight_insert_eq.
    + by rewrite !weight_insert_ne.
  - rewrite !totalWeight_insert, weight_insert_eq. lia.
Qed.

(** [same_function_update_keeps_weights] on a configuration that names
    fn-v2 twice, with the trigger at 30/70. *)
Lemma same_function_update_keeps_weights_witness :
  let cfg :=
    {| Metadata := Metadata exampleConfig;
       Spec := {| Trigger := exampleTrigger;
                  FunctionN := "fn-v2";
                  FunctionNminus1 := "fn-v2";
                  WeightIncrement := 20;
                  WeightIncrementDuration := 60000000000;
                  FailureThreshold := 10 |} |} in
  let t := mkHTTPTrigger (mkObjectMeta "default" "route")
             (Some (weightsOf 30 70)) in
  exists fw',
    FunctionWeights (updatedTrigger cfg t (weightsOf 30 70)) = Some fw' /\
    weight fw' "fn-v2" = 30 /\ weight fw' "fn-v1" = 70.
Proof.
  intros cfg t.
  set (m := mgrWith (apiServing 30 70) (trackerWith 10 0)).
  destruct (same_function_update_keeps_weights m cfg Open
              (processCanaryConfig m cfg Open).1.1
              (processCanaryConfig m cfg Open).1.2
              (processCanaryConfig m cfg Open).2
              "default" (updatedTrigger cfg t (weightsOf 30 70))
              t (weightsOf 30 70))
    as (fw' & Hfw' & Hsame & _).
  - by destruct (processCanaryConfig m cfg Open) as [[? ?] ?].
  - vm_compute. apply list_elem_of_further, list_elem_of_here.
  - reflexivity.
  - reflexivity.
  - reflexivity.
  - by vm_compute.
  - exists fw'. split; [done|]. by rewrite !Hsame.
Defined.

(** X12: the update never drops a function from the mapping and always
    carries an entry for FunctionN and for FunctionNminus1: a function the
    trigger did not list is added, the absent incumbent with the negative
    weight 0 - WeightIncrement. *)
Theorem update_adds_missing_functions m cfg quit out m' quit' ns t' t fw :
  processCanaryConfig m cfg quit = (out, m', quit') ->
  CallUpdate ns t' ∈ newCalls m m' ->
  HTTPTriggers_Get (fissionClient m) (Namespace (Metadata cfg))
    (TriggerName (Trigger (Spec cfg))) = inr t ->
  FunctionWeights t = Some fw ->
  exists fw',
    FunctionWeights t' = Some fw' /\
    dom fw' =
      {[ FunctionN (Spec cfg) ]} ∪ {[ FunctionNminus1 (Spec cfg) ]} ∪ dom fw /\
    (fw !! FunctionNminus1 (Spec cfg) = None ->
     FunctionN (Spec cfg) <> FunctionNminus1 (Spec cfg) ->
     in_int (- WeightIncrement (Spec cfg)) ->
     fw' !! FunctionNminus1 (Spec cfg) = Some (- WeightIncrement (Spec cfg))).
Proof.
  intros Htick Hin Hget Hfw.
  rewrite (tick_update_call _ _ _ _ _ _ _ _ _ _ Htick Hin Hget Hfw).
  unfold updatedTrigger, subWeight, addWeight.
  eexists. split; [reflexivity|]. split.
  - rewrite !dom_insert_L. set_solver.
  - intros Hnone Hne Hint. rewrite lookup_insert_eq. f_equal.
    rewrite weight_insert_ne by done. unfold weight. rewrite Hnone. simpl.
    by apply wrap_id.
Qed.

(** [update_adds_missing_functions] on a trigger that lists only the
    candidate, at 100. *)
Lemma update_adds_missing_functions_witness :
  let fw : gmap string Z := {[ "fn-v2"%string := 100 ]} in
  let t := mkHTTPTrigger (mkObjectMeta "default" "route") (Some fw) in
  exists fw',
    FunctionWeights (updatedTrigger exampleConfig t fw) = Some fw' /\
    fw' !! "fn-v1"%string = Some (-20).
Proof.
  intros fw t.
  set (client := {| HTTPTriggers_Get := fun _ _ => inr t;
                    HTTPTriggers_Update := fun _ t => inr t |}).
  set (m := mgrWith client (trackerWith 10 0)).
  destruct (update_adds_missing_functions m exampleConfig Open
              (processCanaryConfig m exampleConfig Open).1.1
              (processCanaryConfig m exampleConfig Open).1.2
              (processCanaryConfig m exampleConfig Open).2
              "default" (updatedTrigger exampleConfig t fw) t fw)
    as (fw' & Hfw' & _ & Hneg).
  - by destruct (processCanaryConfig m exampleConfig Open) as [[? ?] ?].
  - vm_compute. apply list_elem_of_further, list_elem_of_here.
  - reflexivity.
  - reflexivity.
  - exists fw'. split; [done|].
    apply Hneg; [reflexivity | done | by vm_compute].
Defined.

(** ** Events of the informer *)




(** X14: an Updated event for canary configurations makes its handler
    panic, since it asserts both objects to be HTTP triggers: the delivery
    ends there, with the controller as the events before it left it, and
    the handlers of the events after it never run. *)
Theorem updated_event_panics pre oldObj newObj post i :
  Forall fromCanaryConfigs pre ->
  Forall (fun e => ~ isUpdated e) pre ->
  isCanaryConfig oldObj ->
  deliver (pre ++ Updated oldObj newObj :: post) i =
  (Panicked, (deliver pre i).2).
Proof.
  intros Hcfg Hupd Hold. revert i.
  induction pre as [|e pre IH]; intros i.
  - simpl. by destruct oldObj.
  - inversion Hcfg as [|? ? He Hcfg']; inversion Hupd as [|? ? Hu Hupd'];
      subst.
    destruct e as [[c|t] | o n | [c|t]]; simpl in He, Hu; try done; simpl.
    + apply (IH Hcfg' Hupd').
    + apply (IH Hcfg' Hupd').
Qed.

(** [updated_event_panics] on Added, Updated, Added for the sample
    configuration: one loop was started, the second Added is not
    handled. *)
Lemma updated_event_panics_witness :
  let o := CanaryConfigObject exampleConfig in
  let i0 := {| controller := MakeCanaryConfigMgr exampleApi;
               background := [] |} in
  (deliver [Added o; Updated o o; Added o] i0).1 = Panicked /\
  activeLoops (Metadata exampleConfig)
    (controller (deliver [Added o; Updated o o; Added o] i0).2) = 1%nat.
Proof.
  intros o i0.
  change [Added o; Updated o o; Added o]
    with ([Added o] ++ Updated o o :: [Added o]).
  rewrite (updated_event_panics [Added o] o o [Added o] i0).
  - by vm_compute.
  - repeat constructor.
  - repeat constructor; simpl; tauto.
  - exact I.
Defined.



(** ** The Prometheus query, continued *)

Lemma append_assoc (s1 s2 s3 : string) :
  ((s1 +:+ s2) +:+ s3 = s1 +:+ (s2 +:+ s3))%string.
Proof.
  induction s1 as [|a s1 IH]; [done|].
  change (String a ((s1 +:+ s2) +:+ s3) = String a (s1 +:+ (s2 +:+ s3)))%string.
  by rewrite IH.
Qed.

(** X16: the function panics exactly when the value the query returns is
    nil, whether or not the query also returned an error: a failed query
    that still carries a value returns normally, and a nil value without
    error panics all the same. *)
Theorem GetFunctionFailurePercentage_panics_iff promApi funcName funcNs ts :
  (GetFunctionFailurePercentage promApi funcName funcNs ts).1 = Panicked <->
  (Query promApi (queryString funcName funcNs) ts).1 = None.
Proof.
  unfold GetFunctionFailurePercentage.
  change ("fission_function_errors_total{name=" +:+ funcName +:+
          ",namespace=" +:+ funcNs +:+ "}")%string
    with (queryString funcName funcNs).
  destruct (Query promApi (queryString funcName funcNs) ts)
    as [[[| | |]|] err]; simpl; split; intros; done.
Qed.

(** X17: the label values are pasted into the query unquoted, so a
    function name that contains [,namespace=] is indistinguishable from a
    shorter name in a longer namespace: both calls send the same query and
    end the same way. *)
Theorem query_cannot_tell_name_from_namespace promApi a b c ts :
  GetFunctionFailurePercentage promApi (a +:+ ",namespace=" +:+ b) c ts =
  GetFunctionFailurePercentage promApi a (b +:+ ",namespace=" +:+ c) ts.
Proof.
  unfold GetFunctionFailurePercentage.
  assert (Hq : ("fission_function_errors_total{name=" +:+
                (a +:+ ",namespace=" +:+ b) +:+ ",namespace=" +:+ c +:+ "}"
                = "fission_function_errors_total{name=" +:+ a +:+
                  ",namespace=" +:+ (b +:+ ",namespace=" +:+ c) +:+
                  "}")%string).
  { f_equal. by rewrite !append_assoc. }
  cbv zeta. by rewrite Hq.
Qed.

(** ** The plugin manager: names *)

Section plugin_names.
Import plugins.

Lemma HasPrefix_append p s : HasPrefix (p +:+ s) p = true.
Proof.
  unfold HasPrefix. induction p as [|a p IH]; simpl.
  - by destruct s.
  - by destruct (Ascii.ascii_dec a a).
Qed.

Lemma dropString_append p s : dropString (String.length p) (p +:+ s) = s.
Proof. induction p as [|a p IH]; simpl; [by destruct s | done]. Qed.

Lemma HasPrefix_split b p :
  HasPrefix b p = true -> (p +:+ dropString (String.length p) b)%string = b.
Proof.
  unfold HasPrefix. revert b. induction p as [|a p IH]; intros b Hp; simpl.
  - by destruct b.
  - destruct b as [|c b]; simpl in Hp; [done|].
    destruct (Ascii.ascii_dec a c) as [->|]; [|done].
    change (String c (p +:+ dropString (String.length p) b)
            = String c b)%string.
    f_equal. by apply IH.
Qed.

(** X18: the plugin name got back from the binary name made for it is the
    plugin name itself, whatever the prefix and the name (also when the
    name itself starts with the prefix). *)
Theorem plugin_name_round_trip mgr pluginName :
  pluginNameFromBinary mgr (binaryNameForPlugin mgr pluginName) = pluginName.
Proof.
  unfold pluginNameFromBinary, binaryNameForPlugin, TrimPrefix.
  by rewrite HasPrefix_append, dropString_append.
Qed.

(** X19: the other way round, a binary name is got back from its plugin
    name exactly when it starts with the prefix; a name without the prefix
    is its own plugin name. *)
Theorem binary_name_round_trip_iff mgr binaryName :
  (binaryNameForPlugin mgr (pluginNameFromBinary mgr binaryName) = binaryName
   <-> HasPrefix binaryName (Prefix mgr) = true) /\
  (HasPrefix binaryName (Prefix mgr) = false ->
   pluginNameFromBinary mgr binaryName = binaryName).
Proof.
  unfold pluginNameFromBinary, binaryNameForPlugin, TrimPrefix. split.
  - destruct (HasPrefix binaryName (Prefix mgr)) eqn:Hp.
    + split; [done|]. intros _. by apply HasPrefix_split.
    + split; [|done]. intros Heq. rewrite <- Heq, HasPrefix_append in Hp.
      done.
  - by intros ->.
Qed.

End plugin_names.

(** ** The plugin manager: the cache *)

Section plugin_cache.
Import plugins.
Implicit Types (lib : Lib) (mgr : Manager) (w : World).
Implicit Types (c : gmap string (option Metadata)) (md : Metadata).

Lemma useCache_false mgr :
  useCache mgr = false <-> String.length (CachePath mgr) = 0%nat.
Proof.
  unfold useCache. case_bool_decide; split; intros; try done; lia.
Qed.

(** X20: the cache file is read at most once per manager. After a
    [readCache] that returned a map without error, every later
    [readCache] returns that very map without looking at the file, so
    what other processes write to the file in the meantime is not
    seen. *)
Theorem readCache_is_memoized lib mgr w c mgr1 :
  readCache lib mgr w = (Some c, None, mgr1) ->
  forall lib' w', readCache lib' mgr1 w' = (Some c, None, mgr1).
Proof.
  unfold readCache. intros Hread lib' w'.
  destruct (cache mgr) as [c0|] eqn:Hcache.
  - inversion Hread; subst. by rewrite Hcache.
  - case_bool_decide; [done|].
    destruct (ioutil_ReadFile w (CachePath mgr)) as [err|bs]; [done|].
    destruct (json_UnmarshalCache lib bs) as [cached [err|]]; [done|].
    by inversion Hread; subst.
Qed.

(** [readCache_is_memoized] on the sample machine: after the first read
    the manager answers the same on a machine without any file. *)
Lemma readCache_is_memoized_witness :
  let mgr1 := (readCache sampleLib sampleManager sampleWorld).2 in
  readCache sampleLib mgr1
    {| files := ∅; now := 0; writable := fun _ => false |}
  = (Some ∅, None, mgr1).
Proof.
  intros mgr1.
  apply (readCache_is_memoized sampleLib sampleManager sampleWorld ∅ mgr1).
  reflexivity.
Defined.

(** [writeCacheAll] writes nothing but the cache file. *)
Lemma writeCacheAll_frame lib mgr mds w err mgr' w' :
  writeCacheAll lib mgr mds w = (err, mgr', w') ->
  Prefix mgr' = Prefix mgr /\ CachePath mgr' = CachePath mgr /\
  now w' = now w /\
  forall p, p <> CachePath mgr -> files w' !! p = files w !! p.
Proof.
  unfold writeCacheAll, ioutil_WriteFile. intros H.
  repeat case_match; simplify_eq/=; repeat split; try done;
    intros p Hp; by rewrite lookup_insert_ne.
Qed.

(** X21: when [writeCacheAll] succeeds, the cache file holds what
    [json.Marshal] made of the map, stamped with the present time, no
    other file has changed, and [readCache] from then on returns the map
    that was written. *)
Theorem writeCacheAll_then_readCache lib mgr c w mgr' w' :
  writeCacheAll lib mgr (Some c) w = (None, mgr', w') ->
  (exists f, files w' !! CachePath mgr = Some f /\
             Content f = (json_Marshal lib (Some c)).1 /\
             ModTime f = now w /\ IsDir f = false) /\
  (forall p, p <> CachePath mgr -> files w' !! p = files w !! p) /\
  (forall lib' w'', readCache lib' mgr' w'' = (Some c, None, mgr')).
Proof.
  intros Hw. split; [|split].
  - unfold writeCacheAll, ioutil_WriteFile in Hw.
    repeat case_match; simplify_eq/=;
      rewrite lookup_insert_eq; eexists; split; done.
  - by eapply writeCacheAll_frame.
  - intros lib' w''. unfold writeCacheAll in Hw.
    repeat case_match; simplify_eq/=. done.
Qed.

(** [writeCacheAll_then_readCache] on the sample machine. *)
Lemma writeCacheAll_then_readCache_witness :
  let c : gmap string (option Metadata) :=
    {[ "hello"%string := Some samplePlugin ]} in
  let r := writeCacheAll sampleLib sampleManager (Some c) sampleWorld in
  readCache sampleLib r.1.2 sampleWorld = (Some c, None, r.1.2).
Proof.
  intros c r.
  destruct (writeCacheAll_then_readCache sampleLib sampleManager c
              sampleWorld r.1.2 r.2) as (_ & _ & Hread).
  - reflexivity.
  - apply Hread.
Defined.

(** [readCache] changes the manager in its [cache] field only. *)
Lemma readCache_frame lib mgr w cached err mgr' :
  readCache lib mgr w = (cached, err, mgr') ->
  Prefix mgr' = Prefix mgr /\ CachePath mgr' = CachePath mgr /\
  Registries mgr' = Registries mgr.
Proof.
  unfold readCache. intros H. repeat case_match; by simplify_eq/=.
Qed.

(** X22: [writeCache] never creates the cache file. When the manager has
    no cache loaded and the file cannot be read (or no cache path is set),
    it returns an error and leaves the manager and the file system as
    they were. *)
Theorem writeCache_needs_readable_file lib mgr md w e :
  cache mgr = None ->
  ioutil_ReadFile w (CachePath mgr) = inl e ->
  exists err, writeCache lib mgr (Some md) w = (Returned, Some err, mgr, w).
Proof.
  intros Hcache Hread. unfold writeCache, readCache.
  rewrite Hcache, Hread. case_bool_decide; eauto.
Qed.

(** [writeCache_needs_readable_file] on a machine without the cache
    file. *)
Lemma writeCache_needs_readable_file_witness :
  let w := {| files := ∅; now := 0; writable := fun _ => true |} in
  exists err,
    writeCache sampleLib sampleManager (Some samplePlugin) w =
    (Returned, Some err, sampleManager, w).
Proof.
  intros w.
  apply (writeCache_needs_readable_file sampleLib sampleManager samplePlugin w
           (ErrExternal "no such file or directory")); reflexivity.
Defined.

(** X23: when [writeCache] succeeds, the manager's cache is the map that
    [readCache] gave with the metadata stored under its name: looking the
    name up gives the metadata, every other name is as before, and the
    cache file holds the encoding of that map. *)
Theorem writeCache_then_lookup lib mgr md w mgr' w' :
  writeCache lib mgr (Some md) w = (Returned, None, mgr', w') ->
  exists c mgr1 f,
    readCache lib mgr w = (Some c, None, mgr1) /\
    cache mgr' = Some (<[Name md := Some md]> c) /\
    files w' !! CachePath mgr = Some f /\
    Content f = (json_Marshal lib (Some (<[Name md := Some md]> c))).1.
Proof.
  unfold writeCache. intros H.
  destruct (readCache lib mgr w) as [[[c|] [err|]] mgr1] eqn:Hread;
    try done.
  destruct (readCache_frame _ _ _ _ _ _ Hread) as (_ & Hpath & _).
  destruct (writeCacheAll lib _ _ w) as [[[err|] mgr2] w2] eqn:Hw;
    simplify_eq/=.
  destruct (writeCacheAll_then_readCache _ _ _ _ _ _ Hw)
    as ((f & Hf & Hcontent & _) & _ & _).
  exists c, mgr1, f. split; [done|]. rewrite <- Hpath. split; [|done].
  unfold writeCacheAll in Hw. repeat case_match; by simplify_eq/=.
Qed.

(** [writeCache_then_lookup] on the sample machine. *)
Lemma writeCache_then_lookup_witness :
  let r := writeCache sampleLib sampleManager (Some samplePlugin)
             sampleWorld in
  cache r.1.2 ≫= (fun c => c !! "hello"%string) = Some (Some samplePlugin).
Proof.
  intros r.
  destruct (writeCache_then_lookup sampleLib sampleManager samplePlugin
              sampleWorld r.1.2 r.2) as (c & mgr1 & f & _ & -> & _).
  - reflexivity.
  - simpl. apply lookup_insert_eq.
Defined.

(** X24: when the cache is loaded and [writeCache] fails (the encoding
    or the write of the file is refused), the metadata is in the
    manager's cache all the same, because it was stored in the shared map
    before the write: memory and file now differ. *)
Theorem writeCache_failure_keeps_entry lib mgr c md w out err mgr' w' :
  cache mgr = Some c ->
  writeCache lib mgr (Some md) w = (out, Some err, mgr', w') ->
  cache mgr' = Some (<[Name md := Some md]> c) /\ files w' = files w.
Proof.
  intros Hcache. unfold writeCache, readCache. rewrite Hcache.
  unfold writeCacheAll, ioutil_WriteFile. intros H.
  repeat case_match; by simplify_eq/=.
Qed.

(** [writeCache_failure_keeps_entry] on the machine on which nothing can
    be written. *)
Lemma writeCache_failure_keeps_entry_witness :
  let mgr := withCache (Some ∅) sampleManager in
  let r := writeCache sampleLib mgr (Some samplePlugin) readOnlyWorld in
  r.1.1.2 = Some (ErrExternal "cannot write") /\
  cache r.1.2 = Some {[ "hello"%string := Some samplePlugin ]} /\
  files r.2 = files readOnlyWorld.
Proof.
  intros mgr r. split; [reflexivity|].
  apply (writeCache_failure_keeps_entry sampleLib mgr ∅ samplePlugin
           readOnlyWorld r.1.1.1 (ErrExternal "cannot write") r.1.2 r.2).
  - reflexivity.
  - reflexivity.
Defined.

End plugin_cache.

(** ** The plugin manager: fetching metadata *)

Section plugin_fetch.
Import plugins.
Implicit Types (lib : Lib) (mgr : Manager) (w : World).

Lemma onlyCacheChanged_refl mgr w : onlyCacheChanged mgr w mgr w.
Proof. by repeat split. Qed.

Lemma onlyCacheChanged_trans mgr w mgr1 w1 mgr2 w2 :
  onlyCacheChanged mgr w mgr1 w1 -> onlyCacheChanged mgr1 w1 mgr2 w2 ->
  onlyCacheChanged mgr w mgr2 w2.
Proof.
  intros (Hp & Hc & Hn & Hf) (Hp' & Hc' & Hn' & Hf'). repeat split.
  - by rewrite Hp'.
  - by rewrite Hc'.
  - by rewrite Hn'.
  - intros p Hne. rewrite Hf' by (by rewrite Hc). by apply Hf.
Qed.

Lemma writeCache_frame lib mgr md w out err mgr' w' :
  writeCache lib mgr md w = (out, err, mgr', w') ->
  onlyCacheChanged mgr w mgr' w'.
Proof.
  unfold writeCache. intros H. destruct md as [m|].
  2: { simplify_eq. apply onlyCacheChanged_refl. }
  destruct (readCache lib mgr w) as [[cached e] mgr1] eqn:Hread.
  destruct (readCache_frame _ _ _ _ _ _ Hread) as (Hp & Hc & _).
  assert (H1 : onlyCacheChanged mgr w mgr1 w) by (by repeat split).
  destruct cached as [c|], e as [e|]; try (by simplify_eq).
  destruct (writeCacheAll lib _ _ w) as [[e2 mgr2] w2] eqn:Hw.
  apply writeCacheAll_frame in Hw as (Hp2 & Hc2 & Hn2 & Hf2). simpl in *.
  assert (mgr' = mgr2 /\ w' = w2) as [-> ->]
    by (destruct e2; by simplify_eq).
  repeat split; try congruence.
  intros p Hne. apply Hf2. congruence.
Qed.

Lemma runPlugin_frame lib mgr pluginPath d w out md err mgr' w' :
  runPlugin lib mgr pluginPath d w = (out, md, err, mgr', w') ->
  onlyCacheChanged mgr w mgr' w' /\
  (useCache mgr = false -> mgr' = mgr /\ w' = w) /\
  (forall m, out = Returned -> md = Some m -> err = None ->
             ModifiedAt m = ModTime d).
Proof.
  unfold runPlugin. intros H.
  destruct (run lib pluginPath [CmdMetadataArgs]) as [buf [e|]].
  { simplify_eq. split; [apply onlyCacheChanged_refl | done]. }
  destruct (useCache mgr) eqn:Huse.
  - destruct (writeCache lib mgr _ w) as [[[o e] mgr1] w1] eqn:Hw.
    apply writeCache_frame in Hw.
    destruct o; simplify_eq; (split; [done | split; [done|]]);
      intros m ? ? ?; by simplify_eq.
  - simplify_eq. split; [apply onlyCacheChanged_refl | split; [done|]].
    intros m ? ? ?. by simplify_eq.
Qed.

Lemma fetchPluginMetadata_frame lib mgr pluginPath w out md err mgr' w' :
  fetchPluginMetadata lib mgr pluginPath w = (out, md, err, mgr', w') ->
  onlyCacheChanged mgr w mgr' w' /\
  (useCache mgr = false -> mgr' = mgr /\ w' = w).
Proof.
  unfold fetchPluginMetadata. intros H.
  destruct (os_Stat w pluginPath) as [d|].
  2: { simplify_eq. split; [apply onlyCacheChanged_refl | done]. }
  destruct (IsDir d || bool_decide (Z.land (Mode d) 73 = 0)).
  { simplify_eq. split; [apply onlyCacheChanged_refl | done]. }
  destruct (useCache mgr) eqn:Huse; simpl in H.
  2: { apply runPlugin_frame in H as (? & Hoff & _). auto. }
  split; [|done].
  destruct (negb (cacheIsStale mgr w)).
  2: { by apply runPlugin_frame in H as (? & _). }
  destruct (readCache lib mgr w) as [[cached e] mgr1] eqn:Hread.
  destruct (readCache_frame _ _ _ _ _ _ Hread) as (Hp & Hc & _).
  assert (H1 : onlyCacheChanged mgr w mgr1 w) by (by repeat split).
  repeat case_match; simplify_eq; try done;
    (eapply onlyCacheChanged_trans; [exact H1|]);
    by apply runPlugin_frame in H as (? & _).
Qed.

(** X25: metadata that [fetchPluginMetadata] returns always carries the
    modification time of the binary it was fetched for, whether it came
    from the cache or from running the plugin, and that binary is a file
    with at least one execute bit, not a directory. *)
Theorem fetched_metadata_is_stamped lib mgr pluginPath w (md : Metadata)
    mgr' w' :
  fetchPluginMetadata lib mgr pluginPath w
    = (Returned, Some md, None, mgr', w') ->
  exists d,
    files w !! pluginPath = Some d /\
    IsDir d = false /\
    Z.land (Mode d) 73 <> 0 /\
    ModifiedAt md = ModTime d.
Proof.
  unfold fetchPluginMetadata, os_Stat. intros H.
  destruct (files w !! pluginPath) as [d|]; [|done].
  exists d. split; [done|].
  destruct (IsDir d) eqn:Hdir; [done|]. simpl in H.
  case_bool_decide as Hmode; [done|]. split; [done|]. split; [done|].
  assert (Hrun : forall mgr0,
             runPlugin lib mgr0 pluginPath d w
               = (Returned, Some md, None, mgr', w') ->
             ModifiedAt md = ModTime d).
  { intros mgr0 Hr. apply runPlugin_frame in Hr as (_ & _ & Hstamp).
    by apply Hstamp. }
  repeat case_match; simplify_eq; eauto.
  match goal with
  | Hb : bool_decide _ = true |- _ => by apply bool_decide_eq_true in Hb
  end.
Qed.

(** [fetched_metadata_is_stamped] on the sample machine, whose cache
    has no entry for the plugin: the plugin is run and its output stamped
    with 5. *)
Lemma fetched_metadata_is_stamped_witness :
  exists d,
    files sampleWorld !! "/bin/fission-hello"%string = Some d /\
    ModifiedAt samplePlugin = ModTime d.
Proof.
  destruct (fetched_metadata_is_stamped sampleLib sampleManager
              "/bin/fission-hello" sampleWorld samplePlugin
              (fetchPluginMetadata sampleLib sampleManager
                 "/bin/fission-hello" sampleWorld).1.2
              (fetchPluginMetadata sampleLib sampleManager
                 "/bin/fission-hello" sampleWorld).2)
    as (d & Hd & _ & _ & Hstamp).
  - by vm_compute.
  - by exists d.
Defined.

(** X26: [Find] never changes the prefix or the cache path of the
    manager and writes no file but the cache file; with an empty cache
    path it changes neither the manager nor the machine at all. *)
Theorem Find_writes_only_the_cache lib mgr pluginName w out md err mgr' w' :
  Find lib mgr pluginName w = (out, md, err, mgr', w') ->
  Prefix mgr' = Prefix mgr /\ CachePath mgr' = CachePath mgr /\
  (forall p, p <> CachePath mgr -> files w' !! p = files w !! p) /\
  (CachePath mgr = EmptyString -> mgr' = mgr /\ w' = w).
Proof.
  unfold Find. intros H.
  assert (Hoff : CachePath mgr = EmptyString -> useCache mgr = false).
  { intros Hempty. apply useCache_false. by rewrite Hempty. }
  destruct (findPluginPath lib mgr pluginName) as [pluginPath [e|]].
  { by simplify_eq. }
  destruct (fetchPluginMetadata lib mgr pluginPath w)
    as [[[[o m] e] mgr1] w1] eqn:Hfetch.
  apply fetchPluginMetadata_frame in Hfetch
    as ((Hp & Hc & _ & Hf) & Hsame).
  assert (mgr' = mgr1 /\ w' = w1) as [-> ->]
    by (destruct e; by simplify_eq).
  repeat split; try done; by apply Hsame, Hoff.
Qed.

(** [Find_writes_only_the_cache] on the sample machine: the binaries are
    as they were. *)
Lemma Find_writes_only_the_cache_witness :
  files (Find sampleLib sampleManager "hello" sampleWorld).2
    !! "/bin/fission-hello"%string
  = files sampleWorld !! "/bin/fission-hello"%string.
Proof.
  destruct (Find_writes_only_the_cache sampleLib sampleManager "hello"
              sampleWorld
              (Find sampleLib sampleManager "hello" sampleWorld).1.1.1.1
              (Find sampleLib sampleManager "hello" sampleWorld).1.1.1.2
              (Find sampleLib sampleManager "hello" sampleWorld).1.1.2
              (Find sampleLib sampleManager "hello" sampleWorld).1.2
              (Find sampleLib sampleManager "hello" sampleWorld).2)
    as (_ & _ & Hfiles & _).
  - by destruct (Find sampleLib sampleManager "hello" sampleWorld)
      as [[[[? ?] ?] ?] ?].
  - by apply Hfiles.
Defined.



(** X28: a null entry in the cache file makes [fetchPluginMetadata]
    panic. When the cache is in use and not stale, nothing is loaded yet
    and the file decodes without error to a map that holds a nil pointer
    under the plugin's name, the function dereferences it. *)
Theorem nil_cache_entry_panics lib mgr pluginPath w d f c :
  files w !! pluginPath = Some d ->
  IsDir d = false ->
  Z.land (Mode d) 73 <> 0 ->
  cacheIsStale mgr w = false ->
  cache mgr = None ->
  files w !! CachePath mgr = Some f ->
  IsDir f = false ->
  json_UnmarshalCache lib (Content f) = (Some c, None) ->
  c !! pluginNameFromBinary mgr (path_Base lib pluginPath) = Some None ->
  (fetchPluginMetadata lib mgr pluginPath w).1.1.1.1 = Panicked.
Proof.
  intros Hd Hdir Hmode Hfresh Hcache Hf Hfdir Hjson Hentry.
  assert (Huse : useCache mgr = true).
  { unfold cacheIsStale in Hfresh. unfold useCache.
    case_bool_decide; [done|]. apply bool_decide_eq_true. lia. }
  unfold fetchPluginMetadata, os_Stat, readCache, ioutil_ReadFile.
  rewrite Hd, Hdir, Huse, Hfresh, Hcache, Hf, Hfdir, Hjson. simpl.
  rewrite bool_decide_eq_false_2 by done.
  rewrite bool_decide_eq_false_2.
  - unfold pluginNameFromBinary in *. simpl. by rewrite Hentry.
  - apply bool_decide_eq_true in Huse. lia.
Qed.

(** [nil_cache_entry_panics] on the sample machine with a library that
    decodes the cache file to a null entry for the plugin. *)
Lemma nil_cache_entry_panics_witness :
  let lib :=
    {| json_Marshal := json_Marshal sampleLib;
       json_UnmarshalCache := fun _ =>
         (Some {[ "hello"%string := None ]}, None);
       json_UnmarshalMetadata := json_UnmarshalMetadata sampleLib;
       path_Base := path_Base sampleLib;
       path_Join := path_Join sampleLib;
       exec_LookPath := exec_LookPath sampleLib;
       run := run sampleLib;
       pathDirs := pathDirs sampleLib;
       ioutil_ReadDir := ioutil_ReadDir sampleLib |} in
  (fetchPluginMetadata lib sampleManager "/bin/fission-hello"
     sampleWorld).1.1.1.1 = Panicked.
Proof.
  intros lib.
  apply (nil_cache_entry_panics lib sampleManager "/bin/fission-hello"
           sampleWorld
           {| IsDir := false; Mode := 493; ModTime := 5; Content := "" |}
           {| IsDir := false; Mode := 420; ModTime := 100; Content := "{}" |}
           {[ "hello"%string := None ]});
    by vm_compute.
Defined.

(** *** All plugins *)

Lemma foldl_inv {A B} (P : A -> Prop) (f : A -> B -> A) l a :
  (forall a x, P a -> P (f a x)) -> P a -> P (foldl f a l).
Proof.
  intros Hstep. revert a. induction l as [|x l IH]; intros a Ha; [done|].
  simpl. by apply IH, Hstep.
Qed.

Lemma FindAll_file_inv lib mgr w dir acc name :
  FindAll_inv mgr w acc -> FindAll_inv mgr w (FindAll_file lib dir acc name).
Proof.
  destruct acc as [[[out found] mgr1] w1]. intros [Hent Hframe].
  unfold FindAll_file. destruct out; [|done].
  destruct (negb (HasPrefix name (Prefix mgr1))); [done|].
  destruct (fetchPluginMetadata lib mgr1 (path_Join lib dir name) w1)
    as [[[[o m] e] mgr2] w2] eqn:Hfetch.
  apply fetchPluginMetadata_frame in Hfetch as (Hstep & _).
  assert (Hframe' : onlyCacheChanged mgr w mgr2 w2)
    by (by eapply onlyCacheChanged_trans).
  destruct o, e as [e|], m as [m|]; split; simpl in *; try done.
  intros k v. destruct (decide (k = Name m)) as [->|Hk].
  - rewrite lookup_insert_eq. intros [= <-]. by exists m.
  - rewrite lookup_insert_ne by done. apply Hent.
Qed.

Lemma FindAll_dir_inv lib mgr w acc dir :
  FindAll_inv mgr w acc -> FindAll_inv mgr w (FindAll_dir lib acc dir).
Proof.
  intros Hacc. unfold FindAll_dir.
  destruct (ioutil_ReadDir lib dir) as [fs|]; [|done].
  apply foldl_inv; [|done]. intros a x. apply FindAll_file_inv.
Qed.

(** X29: in the map [FindAll] returns every entry is a non-nil pointer
    stored under the name its metadata carries, and [FindAll] leaves the
    prefix and the cache path of the manager alone and writes no file but
    the cache file. *)
Theorem FindAll_entries_and_frame lib mgr w :
  let r := FindAll lib mgr w in
  (forall k v, r.1.1.2 !! k = Some v ->
               exists md : Metadata, v = Some md /\ Name md = k) /\
  Prefix r.1.2 = Prefix mgr /\ CachePath r.1.2 = CachePath mgr /\
  (forall p, p <> CachePath mgr -> files r.2 !! p = files w !! p).
Proof.
  intros r.
  assert (Hinv : FindAll_inv mgr w r).
  { unfold r, FindAll.
    assert (Hloop : FindAll_inv mgr w
              (foldl (FindAll_dir lib) (Returned, ∅, mgr, w) (pathDirs lib))).
    { apply foldl_inv.
      - intros a x. apply FindAll_dir_inv.
      - split; [|apply onlyCacheChanged_refl]. intros k v. simpl.
        by rewrite lookup_empty. }
    destruct (foldl (FindAll_dir lib) (Returned, ∅, mgr, w) (pathDirs lib))
      as [[[out found] mgr1] w1].
    destruct Hloop as [Hent Hframe]. simpl in *.
    destruct out; [|by split].
    destruct (useCache mgr1); [|by split].
    destruct (writeCacheAll lib mgr1 (Some found) w1)
      as [[e mgr2] w2] eqn:Hw.
    split; [done|]. simpl.
    eapply onlyCacheChanged_trans; [exact Hframe|].
    apply writeCacheAll_frame in Hw. by destruct Hw as (? & ? & ? & ?). }
  destruct Hinv as (Hent & Hp & Hc & _ & Hf). auto.
Qed.

(** X30: [UpdateCacheIfStale] refreshes only a stale cache. While the
    cache file exists and was modified no longer ago than
    CacheRefreshInterval (one hour, the bound included), it finds no
    plugin, runs none and changes neither the manager nor the machine. *)
Theorem UpdateCacheIfStale_keeps_fresh_cache lib mgr w f :
  files w !! CachePath mgr = Some f ->
  now w <= ModTime f + CacheRefreshInterval ->
  UpdateCacheIfStale lib mgr w = (Returned, mgr, w).
Proof.
  intros Hf Hfresh. unfold UpdateCacheIfStale, cacheIsStale, os_Stat.
  rewrite Hf. destruct (useCache mgr) eqn:Huse; [|done]. simpl.
  apply bool_decide_eq_true in Huse.
  rewrite bool_decide_eq_false_2 by lia.
  by rewrite bool_decide_eq_false_2 by lia.
Qed.

(** [UpdateCacheIfStale_keeps_fresh_cache] on the sample machine exactly
    one hour after the cache file was written. *)
Lemma UpdateCacheIfStale_keeps_fresh_cache_witness :
  let w := {| files := files sampleWorld;
              now := 100 + CacheRefreshInterval;
              writable := fun _ => true |} in
  UpdateCacheIfStale sampleLib sampleManager w = (Returned, sampleManager, w).
Proof.
  intros w.
  apply (UpdateCacheIfStale_keeps_fresh_cache sampleLib sampleManager w
           {| IsDir := false; Mode := 420; ModTime := 100;
              Content := "{}" |}).
  - reflexivity.
  - by vm_compute.
Defined.

End plugin_fetch.
